(** * go-arrow-json2csv2schema: a shallow embedding and its properties

    The development follows the two Go sources of the repository:
    the library package [json2schema] (flattening one JSON object into a
    header line and a first row, and asking the Arrow CSV reader for a
    schema) and the command [main] (flag parsing, file handles, the exit
    code and the pretty serializer).

    Go strings and byte slices are byte sequences: they are modelled as
    [string] (a list of 8-bit [ascii]).  A Go result pair [(v, err)] is a
    pair [(v, option error)], with the zero value of [v] where the source
    returns [nil].  Code of other packages (encoding/json, the Arrow CSV
    reader, the flag package, the operating system) is taken as a
    parameter, bundled in the records [Json], [Arrow] and [Env]. *)

From Stdlib Require Import ZArith NArith Ascii String OrderedTypeEx SpecFloat.
From stdpp Require Import base list sorting gmap strings.

Set Warnings "-register-all".
Local Open Scope string_scope.

(** ** Errors *)

(** Go's [error] values as the two packages build them: the sentinels
    declared with [errors.New], [fmt.Errorf("%w: %s", e, s)],
    [errors.Join], and errors coming out of other packages. *)
Inductive error : Type :=
| ErrNoCsvRecordBatchGot
| ErrKeyNotFound
| ErrInvalidTypeMapping
| Errorf_w (wrapped : error) (detail : string)
| Join (errs : list error)
| LibError (msg : string).

Definition newline_char : ascii := ascii_of_N 10.

Fixpoint join_lines (l : list string) : string :=
  match l with
  | [] => EmptyString
  | [x] => x
  | x :: rest => x ++ String newline_char (join_lines rest)
  end.

(** The method Error. *)
Fixpoint Error (e : error) : string :=
  match e with
  | ErrNoCsvRecordBatchGot => "no csv record batch got"
  | ErrKeyNotFound => "key not found"
  | ErrInvalidTypeMapping => "invalid type mapping"
  | Errorf_w w d => Error w ++ ": " ++ d
  | Join errs => join_lines (map Error errs)
  | LibError m => m
  end.

Definition error_eqb_sentinel (e target : error) : bool :=
  match e, target with
  | ErrNoCsvRecordBatchGot, ErrNoCsvRecordBatchGot => true
  | ErrKeyNotFound, ErrKeyNotFound => true
  | ErrInvalidTypeMapping, ErrInvalidTypeMapping => true
  | _, _ => false
  end.

(** [errors.Is e target] for a sentinel [target]: the chain of wrapped
    errors is searched, every member of a joined error. *)
Fixpoint errors_Is (e target : error) : bool :=
  error_eqb_sentinel e target ||
  match e with
  | Errorf_w w _ => errors_Is w target
  | Join errs => existsb (fun x => errors_Is x target) errs
  | _ => false
  end.

(** [errors.Join(a, b)]: nil when both are nil, otherwise the non-nil
    ones joined. *)
Definition errors_Join (a b : option error) : option error :=
  match a, b with
  | None, None => None
  | Some x, None => Some (Join [x])
  | None, Some y => Some (Join [y])
  | Some x, Some y => Some (Join [x; y])
  end.

(** ** Decoded JSON values *)

(** A float64 is an IEEE 754 binary64 datum; [spec_float] is the
    Standard Library's specification type for it. *)
Definition float64 : Type := spec_float.

(** The dynamic types that [json.Unmarshal] stores in an [any]; a JSON
    object is a Go map. *)
Inductive any : Type :=
| VString (s : string)
| VFloat64 (f : float64)
| VBool (b : bool)
| VNil
| VSlice (l : list any)
| VMap (m : gmap string any).

Abbreviation JsonMapObject := (gmap string any).

(** ** Strings: order and sorting *)

(** Go compares strings byte by byte; so does [String.compare]. *)
Definition string_le (a b : string) : Prop := String.leb a b = true.
Definition string_lt (a b : string) : Prop := String.ltb a b = true.

#[global] Instance string_le_dec a b : Decision (string_le a b).
Proof. unfold string_le. apply _. Defined.

#[global] Instance string_lt_dec a b : Decision (string_lt a b).
Proof. unfold string_lt. apply _. Defined.

(** [slices.Sort] on a [[]string]: the ascending sort by [<].  Equal
    strings cannot be told apart, so the result is the only ascending
    arrangement of the elements, whatever the algorithm. *)
Definition slices_Sort (l : list string) : list string :=
  merge_sort string_le l.

(** ** Map iteration *)

(** The order in which Go ranges over a map is unspecified and changes
    from one loop to the next.  A [MapIter] is one such choice: for every
    map an enumeration of its keys. *)
Record MapIter : Type := {
  maps_Keys : JsonMapObject -> list string;
  maps_Keys_perm : forall m, maps_Keys m ≡ₚ (map_to_list m).*1
}.

(** json2schema.go, MapToHeaderStrsSorted *)
Definition MapToHeaderStrsSorted (it : MapIter) (j : JsonMapObject)
  : list string * option error :=
  let keys := maps_Keys it j in
  let slc := keys in
  let slc := slices_Sort slc in
  (slc, None).

(** ** Library functions used by the value stringifier *)

Local Open Scope Z_scope.

(** strconv.FormatBool *)
Definition strconv_FormatBool (b : bool) : string :=
  if b then "true" else "false".

Definition digit_char (d : Z) : ascii :=
  match d with
  | 0 => "0" | 1 => "1" | 2 => "2" | 3 => "3" | 4 => "4"
  | 5 => "5" | 6 => "6" | 7 => "7" | 8 => "8" | _ => "9"
  end%char.

Definition is_digit (c : ascii) : bool :=
  ((48 <=? N_of_ascii c) && (N_of_ascii c <=? 57))%N.

Fixpoint all_digits (s : string) : bool :=
  match s with
  | EmptyString => true
  | String c r => is_digit c && all_digits r
  end.

(** Decimal digits of a natural number, most significant first. *)
Fixpoint dec_digits (fuel : nat) (n : Z) (acc : string) : string :=
  match fuel with
  | O => acc
  | S k =>
      let acc' := String (digit_char (n mod 10)) acc in
      if n <? 10 then acc' else dec_digits k (n / 10) acc'
  end.

Definition itoa (n : Z) : string :=
  dec_digits (S (Z.to_nat (Z.log2 n))) n "".

(** The six digits of [r], for [0 <= r < 10^6]. *)
Definition frac6 (r : Z) : string :=
  String (digit_char (r / 100000 mod 10))
 (String (digit_char (r / 10000 mod 10))
 (String (digit_char (r / 1000 mod 10))
 (String (digit_char (r / 100 mod 10))
 (String (digit_char (r / 10 mod 10))
 (String (digit_char (r mod 10)) ""))))).

(** [num / den] rounded to the nearest integer, ties to even
    ([den > 0]). *)
Definition round_half_even (num den : Z) : Z :=
  let q := num / den in
  let r := num mod den in
  if 2 * r <? den then q
  else if den <? 2 * r then q + 1
  else if Z.even q then q else q + 1.

(** [m * 2^e * 10^6] rounded to an integer: the magnitude of a finite
    float in units of the sixth decimal. *)
Definition micros (m : positive) (e : Z) : Z :=
  if 0 <=? e then Z.pos m * 2 ^ e * 1000000
  else round_half_even (Z.pos m * 1000000) (2 ^ (- e)).

Definition fixed6 (neg : bool) (u : Z) : string :=
  ((if neg then "-" else "") ++ itoa (u / 1000000) ++ "." ++ frac6 (u mod 1000000))%string.

(** fmt.Sprintf("%f", x) for a float64 [x]: the exact value rounded to
    six decimals (ties to even), the sign kept also for a zero; the
    non-numbers print as [NaN], [+Inf] and [-Inf]. *)
Definition Sprintf_f (x : float64) : string :=
  match x with
  | S754_zero s => fixed6 s 0
  | S754_finite s m e => fixed6 s (micros m e)
  | S754_infinity s => if s then "-Inf" else "+Inf"
  | S754_nan => "NaN"
  end.

Close Scope Z_scope.

(** The UTF-8 encodings of the runes for which [unicode.IsSpace] holds. *)
Definition bytes (l : list N) : string :=
  fold_right (fun b s => String (ascii_of_N b) s) EmptyString l.

Definition space_runes : list string :=
  map bytes
    [ [9]; [10]; [11]; [12]; [13]; [32]; [194; 133]; [194; 160];
      [225; 154; 128];
      [226; 128; 128]; [226; 128; 129]; [226; 128; 130]; [226; 128; 131];
      [226; 128; 132]; [226; 128; 133]; [226; 128; 134]; [226; 128; 135];
      [226; 128; 136]; [226; 128; 137]; [226; 128; 138];
      [226; 128; 168]; [226; 128; 169]; [226; 128; 175];
      [226; 129; 159]; [227; 128; 128] ]%N.

Fixpoint strip_prefix (p s : string) : option string :=
  match p, s with
  | EmptyString, _ => Some s
  | String a p', String b s' =>
      if Ascii.eqb a b then strip_prefix p' s' else None
  | String _ _, EmptyString => None
  end.

Fixpoint strip_first (ps : list string) (s : string) : option string :=
  match ps with
  | [] => None
  | p :: ps' =>
      match strip_prefix p s with
      | Some r => Some r
      | None => strip_first ps' s
      end
  end.

Fixpoint trim_left (runes : list string) (fuel : nat) (s : string) : string :=
  match fuel with
  | O => s
  | S k =>
      match strip_first runes s with
      | Some r => trim_left runes k r
      | None => s
      end
  end.

Definition string_rev (s : string) : string :=
  string_of_list_ascii (rev (list_ascii_of_string s)).

(** strings.TrimSpace: leading and trailing white space removed. *)
Definition strings_TrimSpace (s : string) : string :=
  let l := trim_left space_runes (String.length s) s in
  string_rev
    (trim_left (map string_rev space_runes) (String.length l) (string_rev l)).

(** ** encoding/json *)

(** What the package takes from encoding/json: [json.Unmarshal] into a
    [JsonMapObject], the compact encoding of a value ([json.Marshal],
    which [Encoder.Encode] writes followed by a newline) and the encoding
    of a string as a JSON string literal.  An error of the package is
    given by its text: it is none of the sentinels declared here. *)
Record Json : Type := {
  json_Unmarshal : string -> JsonMapObject * option string;
  json_Marshal : any -> string * option string;
  json_quote : string -> string
}.

(** An error of encoding/json, with its text. *)
Definition json_error (msg : string) : error := LibError msg.

(** json.Encoder.Encode into a fresh buffer: the buffer afterwards and
    the error. *)
Definition Encoder_Encode (J : Json) (val : any) : string * option error :=
  match json_Marshal J val with
  | (s, None) => (s ++ String "010" EmptyString, None)
  | (_, Some msg) => (EmptyString, Some (json_error msg))
  end.

(** json2schema.go, val2str *)
Definition val2str (J : Json) (val : any) : string * option error :=
  match val with
  | VString typedVal => (typedVal, None)
  | VFloat64 typedVal => (Sprintf_f typedVal, None)
  | VBool typedVal => (strconv_FormatBool typedVal, None)
  | _ =>
      match Encoder_Encode J val with
      | (_, Some e) => ("", Some e)
      | (s, None) => (strings_TrimSpace s, None)
      end
  end.

(** The loop of [MapToValueStrsSorted]: [vals] is the slice built so
    far. *)
Fixpoint values_loop (J : Json) (jsonMap : JsonMapObject)
    (keys : list string) (vals : list string) : list string * option error :=
  match keys with
  | [] => (vals, None)
  | k :: rest =>
      match jsonMap !! k with
      | None => ([], Some (Errorf_w ErrKeyNotFound k))
      | Some val =>
          match val2str J val with
          | (_, Some e) => ([], Some e)
          | (s, None) => values_loop J jsonMap rest (vals ++ [s])
          end
      end
  end.

(** json2schema.go, MapToValueStrsSorted *)
Definition MapToValueStrsSorted (it : MapIter) (J : Json)
    (jsonMap : JsonMapObject) : list string * option error :=
  match MapToHeaderStrsSorted it jsonMap with
  | (_, Some e) => ([], Some e)
  | (keys, None) => values_loop J jsonMap keys []
  end.

(** ** encoding/csv *)

Definition dquote : ascii := ascii_of_N 34.

Fixpoint string_existsb (p : ascii -> bool) (s : string) : bool :=
  match s with
  | EmptyString => false
  | String c r => p c || string_existsb p r
  end.

(** (w *Writer).fieldNeedsQuotes, for the default comma. *)
Definition fieldNeedsQuotes (field : string) : bool :=
  if String.eqb field EmptyString then false
  else if String.eqb field (bytes [92; 46]%N) then true
  else if string_existsb
            (fun c => Ascii.eqb c "010" || Ascii.eqb c "013"
                      || Ascii.eqb c dquote || Ascii.eqb c ",")%char field
       then true
       else match strip_first space_runes field with
            | Some _ => true
            | None => false
            end.

(** The inside of a quoted field: every quote doubled, the rest (carriage
    returns and newlines too, as UseCRLF is off) copied. *)
Fixpoint quote_body (field : string) : string :=
  match field with
  | EmptyString => EmptyString
  | String c r =>
      if Ascii.eqb c dquote then String dquote (String dquote (quote_body r))
      else String c (quote_body r)
  end.

Definition write_field (field : string) : string :=
  if fieldNeedsQuotes field
  then String dquote (quote_body field ++ String dquote EmptyString)
  else field.

Fixpoint write_fields (n : nat) (record : list string) : string :=
  match record with
  | [] => EmptyString
  | field :: rest =>
      (if Nat.eqb n 0 then EmptyString else ",")
        ++ write_field field ++ write_fields (S n) rest
  end.

(** A [csv.Writer] over a [bytes.Buffer]: what is still in the writer's
    own buffer, and what has reached the [bytes.Buffer]. *)
Record csv_Writer : Type := {
  w_pending : string;
  w_buf : string;
  w_err : option error
}.

Definition csv_NewWriter : csv_Writer :=
  {| w_pending := EmptyString; w_buf := EmptyString; w_err := None |}.

(** (w *Writer).Write: the fields separated by commas, then a newline. *)
Definition Writer_Write (w : csv_Writer) (record : list string)
  : csv_Writer * option error :=
  ({| w_pending := w_pending w ++ write_fields 0 record ++ String "010" EmptyString;
      w_buf := w_buf w;
      w_err := w_err w |}, None).

Definition Writer_Flush (w : csv_Writer) : csv_Writer :=
  {| w_pending := EmptyString;
     w_buf := w_buf w ++ w_pending w;
     w_err := w_err w |}.

Definition Writer_Error (w : csv_Writer) : option error := w_err w.

(** ** The flattener and the CSV fragment *)

Record CsvForSchema : Type := {
  HeaderLine : string;
  Row1st : string
}.

Definition MapToHeaderLine : Type := JsonMapObject -> string * option error.
Definition MapToRow1st : Type := JsonMapObject -> string * option error.
Definition MapToHeaderStrings : Type := JsonMapObject -> list string * option error.
Definition MapToValueStrings : Type := JsonMapObject -> list string * option error.

Record MapToCsv : Type := {
  toHeaderLine : MapToHeaderLine;
  toRow1st : MapToRow1st
}.

Record MapToStrings : Type := {
  toHeaderStrings : MapToHeaderStrings;
  toValueStrings : MapToValueStrings
}.

(** json2schema.go, MapToStrings.ToMapToRow1st *)
Definition ToMapToRow1st (m : MapToStrings) : MapToRow1st :=
  fun j =>
    match toValueStrings m j with
    | (_, Some err) => (EmptyString, Some err)
    | (vals, None) =>
        let wtr := csv_NewWriter in
        match Writer_Write wtr vals with
        | (_, Some err) => (EmptyString, Some err)
        | (wtr, None) =>
            let wtr := Writer_Flush wtr in
            match Writer_Error wtr with
            | Some err => (EmptyString, Some err)
            | None => (w_buf wtr, None)
            end
        end
    end.

(** json2schema.go, MapToStrings.ToMapToHeaderLine *)
Definition ToMapToHeaderLine (m : MapToStrings) : MapToHeaderLine :=
  fun j =>
    match toHeaderStrings m j with
    | (_, Some err) => (EmptyString, Some err)
    | (keys, None) =>
        let wtr := csv_NewWriter in
        match Writer_Write wtr keys with
        | (_, Some err) => (EmptyString, Some err)
        | (wtr, None) =>
            let wtr := Writer_Flush wtr in
            match Writer_Error wtr with
            | Some err => (EmptyString, Some err)
            | None => (w_buf wtr, None)
            end
        end
    end.

Definition JsonToCsvRaw : Type := string -> CsvForSchema * option error.

(** json2schema.go, MapToCsv.ToJsonToCsvRaw *)
Definition ToJsonToCsvRaw (J : Json) (m : MapToCsv) : JsonToCsvRaw :=
  fun j =>
    let empty := {| HeaderLine := EmptyString; Row1st := EmptyString |} in
    let jbytes := j in
    match json_Unmarshal J jbytes with
    | (_, Some msg) => (empty, Some (json_error msg))
    | (jmap, None) =>
        let '(hline, ehdr) := toHeaderLine m jmap in
        let '(ro1st, ero1) := toRow1st m jmap in
        ({| HeaderLine := hline; Row1st := ro1st |}, errors_Join ehdr ero1)
    end.

(** ** The Arrow collaborator *)

(** [arrow.DataType]: the three types the command tells apart, and any
    other type with the name its [Name] method returns. *)
Inductive DataType : Type :=
| Float64Type
| StringType
| BooleanType
| OtherType (name : string).

(** (arrow.DataType).Name *)
Definition DataType_Name (t : DataType) : string :=
  match t with
  | Float64Type => "float64"
  | StringType => "utf8"
  | BooleanType => "bool"
  | OtherType n => n
  end.

Record Field : Type := {
  Name : string;
  Type_ : DataType;
  Nullable : bool
}.

Record Schema : Type := { fields : list Field }.

Definition NumFields (s : Schema) : nat := length (fields s).
Definition Fields (s : Schema) : list Field := fields s.

Inductive Option_ : Type :=
| WithHeader (b : bool)
| WithIncludeColumns (cols : list string)
| WithColumnTypes (types : gmap string DataType).

Record RecordBatch : Type := { rec_Schema : Schema }.

(** An [ac.Reader]: the record batches it will still produce (none after
    the input ends or after an error) and the current one. *)
Record Reader : Type := {
  r_rest : list RecordBatch;
  r_cur : option RecordBatch;
  r_refs : nat
}.

(** (r *Reader).Next *)
Definition Reader_Next (r : Reader) : bool * Reader :=
  match r_rest r with
  | [] => (false, {| r_rest := []; r_cur := None; r_refs := r_refs r |})
  | b :: bs => (true, {| r_rest := bs; r_cur := Some b; r_refs := r_refs r |})
  end.

Definition Reader_RecordBatch (r : Reader) : option RecordBatch := r_cur r.

Definition Reader_Release (r : Reader) : Reader :=
  {| r_rest := r_rest r; r_cur := r_cur r; r_refs := pred (r_refs r) |}.

(** What the package takes from the Arrow library: the inferring CSV
    reader over a byte slice, and the schema's own text form. *)
Record Arrow : Type := {
  ac_NewInferringReader : string -> list Option_ -> Reader;
  Schema_String : Schema -> string
}.

(** json2schema.go, CsvForSchemaRow1stWithHeader.ToReader *)
Definition ToReader (A : Arrow) (c : string) (opts : list Option_) : Reader :=
  let rdr := c in
  let allOpts := ([WithHeader true] ++ opts)%list in
  ac_NewInferringReader A rdr allOpts.

(** json2schema.go, CsvForSchemaRow1stWithHeader.ToSchema.  The result
    also carries the reader after the deferred [Release].  A nil record
    batch after a successful [Next] would be a nil dereference; the
    reader never has one there (see [Reader_Next]). *)
Definition ToSchema_reader (A : Arrow) (c : string) (opts : list Option_)
  : (option Schema * option error) * Reader :=
  let rdr := ToReader A c opts in
  match Reader_Next rdr with
  | (true, rdr) =>
      match Reader_RecordBatch rdr with
      | Some rec => ((Some (rec_Schema rec), None), Reader_Release rdr)
      | None => ((None, Some (LibError "nil pointer dereference")), Reader_Release rdr)
      end
  | (false, rdr) => ((None, Some ErrNoCsvRecordBatchGot), Reader_Release rdr)
  end.

Definition ToSchema (A : Arrow) (c : string) (opts : list Option_)
  : option Schema * option error :=
  fst (ToSchema_reader A c opts).

(** * The command *)

(** ** The pretty serializer *)

Record SerializableField : Type := {
  SF_Name : string;
  SF_Type : string;
  SF_Nullable : bool
}.

Record SerializableSchema : Type := { SS_Fields : list SerializableField }.

Definition zero_SerializableField : SerializableField :=
  {| SF_Name := EmptyString; SF_Type := EmptyString; SF_Nullable := false |}.

(** The range loop of [toSerializableSchema]: [Fields[idx]] is assigned
    for every field in turn. *)
Fixpoint toSerializableSchema_loop (idx : nat) (fs : list Field)
    (Fields_ : list SerializableField) : list SerializableField :=
  match fs with
  | [] => Fields_
  | field :: rest =>
      let Fields_ :=
        match Type_ field with
        | Float64Type =>
            <[idx := {| SF_Name := Name field; SF_Type := "float64";
                         SF_Nullable := Nullable field |}]> Fields_
        | StringType =>
            <[idx := {| SF_Name := Name field; SF_Type := "utf8";
                         SF_Nullable := Nullable field |}]> Fields_
        | BooleanType =>
            <[idx := {| SF_Name := Name field; SF_Type := "bool";
                         SF_Nullable := Nullable field |}]> Fields_
        | OtherType _ =>
            <[idx := {| SF_Name := Name field;
                         SF_Type := DataType_Name (Type_ field);
                         SF_Nullable := Nullable field |}]> Fields_
        end in
      toSerializableSchema_loop (S idx) rest Fields_
  end.

(** package main, toSerializableSchema *)
Definition toSerializableSchema (schema : Schema) : SerializableSchema :=
  let serializableSchema :=
    {| SS_Fields := replicate (NumFields schema) zero_SerializableField |} in
  {| SS_Fields :=
       toSerializableSchema_loop 0 (Fields schema) (SS_Fields serializableSchema) |}.

(** *** json.MarshalIndent on a [SerializableSchema] *)

Fixpoint string_repeat (s : string) (n : nat) : string :=
  match n with
  | O => EmptyString
  | S k => s ++ string_repeat s k
  end.

Fixpoint string_join (sep : string) (l : list string) : string :=
  match l with
  | [] => EmptyString
  | [x] => x
  | x :: rest => x ++ sep ++ string_join sep rest
  end.

Section MarshalIndent.
Variable J : Json.
Variables prefix indent : string.

(** A line break, then the prefix and [depth] copies of the indent. *)
Definition newline (depth : nat) : string :=
  String "010" (prefix ++ string_repeat indent depth).

(** An object key as the struct tag names it. *)
Definition key (tag : string) : string :=
  String dquote (tag ++ String dquote ": ").

Definition json_bool (b : bool) : string := if b then "true" else "false".

Definition marshal_field (depth : nat) (f : SerializableField) : string :=
  "{" ++ newline (S depth) ++ key "name" ++ json_quote J (SF_Name f)
    ++ "," ++ newline (S depth) ++ key "type" ++ json_quote J (SF_Type f)
    ++ "," ++ newline (S depth) ++ key "nullable" ++ json_bool (SF_Nullable f)
    ++ newline depth ++ "}".

Definition marshal_fields (depth : nat) (l : list SerializableField) : string :=
  match l with
  | [] => "[]"
  | _ =>
      "[" ++ newline (S depth)
        ++ string_join ("," ++ newline (S depth)) (map (marshal_field (S depth)) l)
        ++ newline depth ++ "]"
  end.

(** json.MarshalIndent(serializableSchema, prefix, indent) *)
Definition json_MarshalIndent (s : SerializableSchema) : string * option error :=
  ("{" ++ newline 1 ++ key "fields" ++ marshal_fields 1 (SS_Fields s)
     ++ newline 0 ++ "}", None).
End MarshalIndent.

(** ** Flags *)

(** package main, typeFromString *)
Definition typeFromString (s : string) : DataType :=
  if String.eqb s "string" then StringType
  else if String.eqb s "float64" then Float64Type
  else if String.eqb s "bool" then BooleanType
  else StringType.

(** strings.Split(s, sep) for a separator of one byte; [cur] is the piece
    being read. *)
Fixpoint split_from (sep : ascii) (s cur : string) : list string :=
  match s with
  | EmptyString => [cur]
  | String c r =>
      if Ascii.eqb c sep then cur :: split_from sep r EmptyString
      else split_from sep r (cur ++ String c EmptyString)
  end.

Definition strings_Split (s : string) (sep : ascii) : list string :=
  split_from sep s EmptyString.

(** The variables that [parseFlags] registers with the flag set. *)
Record FlagValues : Type := {
  fv_inputFile : string;
  fv_outputFile : string;
  fv_pretty : bool;
  fv_include : string;
  fv_types : string
}.

Definition expectedTypeMappingParts : nat := 2.

Definition ParsedFlags : Type :=
  bool * list string * gmap string DataType * string * string.

Definition noFlags : ParsedFlags := (false, [], ∅, EmptyString, EmptyString).

(** The loop of [parseFlags] over the pairs of the -types argument. *)
Fixpoint parseFlags_loop (pairs : list string)
    (columnTypes : gmap string DataType)
  : gmap string DataType * option error :=
  match pairs with
  | [] => (columnTypes, None)
  | pair_ :: rest =>
      let kv := strings_Split pair_ ":" in
      if negb (Nat.eqb (length kv) expectedTypeMappingParts)
      then (∅, Some (Errorf_w ErrInvalidTypeMapping pair_))
      else parseFlags_loop rest
             (<[nth 0 kv EmptyString := typeFromString (nth 1 kv EmptyString)]>
                columnTypes)
  end.

(** package main, createOptions *)
Definition createOptions (includeColumns : list string)
    (columnTypes : gmap string DataType) : list Option_ :=
  let opts := [] in
  let opts :=
    if Nat.ltb 0 (length includeColumns)
    then (opts ++ [WithIncludeColumns includeColumns])%list else opts in
  let opts :=
    if Nat.ltb 0 (size columnTypes)
    then (opts ++ [WithColumnTypes columnTypes])%list else opts in
  opts.

(** ** Files and the world *)

Inductive File : Type :=
| Stdin
| Stdout
| OsFile (name : string).

(** What the operating system and the flag package do, as the command
    sees it: the result of parsing the arguments into the registered
    variables, of opening, creating, reading, writing and closing. *)
Record Env : Type := {
  flag_Parse : list string -> FlagValues * option error;
  os_Open : string -> option error;
  os_Create : string -> option error;
  io_ReadAll : File -> string * option error;
  File_Write : File -> string -> option error;
  File_Close : File -> option error
}.

Inductive event : Type :=
| EvOpen (name : string)
| EvCreate (name : string)
| EvReadAll (f : File)
| EvWrite (f : File) (p : string)
| EvClose (f : File).

Record cli : Type := {
  Input : File;
  Output : File;
  Args : list string;
  ExitCode : Z
}.

Record world : Type := {
  app : cli;
  trace : list event
}.

(** The command threads the [cli] value and the effects on the outside
    through its calls. *)
Definition M (A : Type) : Type := world -> A * world.

Definition ret {A} (a : A) : M A := fun w => (a, w).
Definition bind {A B} (c : M A) (k : A -> M B) : M B :=
  fun w => let '(a, w') := c w in k a w'.

Declare Scope go_scope.
Delimit Scope go_scope with go.
Notation "x <- c ;; k" := (bind c (fun x => k))
  (at level 200, c at level 99, only parsing, right associativity) : go_scope.
Notation "c ;;; k" := (bind c (fun _ => k))
  (at level 200, only parsing, right associativity) : go_scope.

Definition emit (e : event) : M unit :=
  fun w => (tt, {| app := app w; trace := trace w ++ [e] |}).
Definition getApp : M cli := fun w => (app w, w).
Definition setApp (c : cli) : M unit :=
  fun w => (tt, {| app := c; trace := trace w |}).

Definition setInput (f : File) : M unit :=
  bind getApp (fun c =>
  setApp {| Input := f; Output := Output c; Args := Args c; ExitCode := ExitCode c |}).
Definition setOutput (f : File) : M unit :=
  bind getApp (fun c =>
  setApp {| Input := Input c; Output := f; Args := Args c; ExitCode := ExitCode c |}).
Definition setExitCode (z : Z) : M unit :=
  bind getApp (fun c =>
  setApp {| Input := Input c; Output := Output c; Args := Args c; ExitCode := z |}).

(** A function with an unnamed result and a deferred call: the result is
    evaluated by the [return] statement, then the deferred call runs. *)
Definition with_defer {A} (deferred : M unit) (body : M A) : M A :=
  bind body (fun r => bind deferred (fun _ => ret r)).

Section Command.
Variable J : Json.
Variable A : Arrow.
Variable E : Env.
(** The order of the n-th range over a map made by the run. *)
Variable ranges : nat -> MapIter.

Local Open Scope go_scope.

(** package main, cli.parseFlags *)
Definition parseFlags (cliApp : cli) : ParsedFlags * option error :=
  let '(fv, err) := flag_Parse E (Args cliApp) in
  match err with
  | Some err => (noFlags, Some err)
  | None =>
      let inputFile := fv_inputFile fv in
      let outputFile := fv_outputFile fv in
      let pretty := fv_pretty fv in
      let include := fv_include fv in
      let types := fv_types fv in
      let includeColumns :=
        if negb (String.eqb include EmptyString)
        then strings_Split include "," else [] in
      let columnTypes : gmap string DataType := ∅ in
      if negb (String.eqb types EmptyString)
      then
        let pairs := strings_Split types "," in
        match parseFlags_loop pairs columnTypes with
        | (_, Some err) => (noFlags, Some err)
        | (columnTypes, None) =>
            ((pretty, includeColumns, columnTypes, inputFile, outputFile), None)
        end
      else ((pretty, includeColumns, columnTypes, inputFile, outputFile), None)
  end.

(** package main, cli.openInput *)
Definition openInput (inputFile : string) : M (option error) :=
  if negb (String.eqb inputFile EmptyString)
  then
    emit (EvOpen inputFile) ;;;
    match os_Open E inputFile with
    | Some err => ret (Some err)
    | None => setInput (OsFile inputFile) ;;; ret None
    end
  else ret None.

(** package main, cli.openOutput *)
Definition openOutput (outputFile : string) : M (option error) :=
  if negb (String.eqb outputFile EmptyString)
  then
    emit (EvCreate outputFile) ;;;
    match os_Create E outputFile with
    | Some err => ret (Some err)
    | None => setOutput (OsFile outputFile) ;;; ret None
    end
  else ret None.

(** fmt.Fprintln and fmt.Fprintf on a file, the result dropped. *)
Definition Fprint_ (f : File) (s : string) : M unit := emit (EvWrite f s).

(** writer.Write and fmt.Fprintln, the error kept. *)
Definition Write (f : File) (p : string) : M (option error) :=
  emit (EvWrite f p) ;;; ret (File_Write E f p).

Definition ReadAll (f : File) : M (string * option error) :=
  emit (EvReadAll f) ;;; ret (io_ReadAll E f).

Definition nl : string := String "010" EmptyString.

(** package main, run: the converter [j2c] that the function assembles. *)
Definition j2c : JsonToCsvRaw :=
  ToJsonToCsvRaw J
    {| toHeaderLine :=
         ToMapToHeaderLine
           {| toHeaderStrings := MapToHeaderStrsSorted (ranges 0);
              toValueStrings := MapToValueStrsSorted (ranges 1) J |};
       toRow1st :=
         ToMapToRow1st
           {| toHeaderStrings := MapToHeaderStrsSorted (ranges 2);
              toValueStrings := MapToValueStrsSorted (ranges 3) J |} |}.

(** package main, run *)
Definition run (r writer : File) (pretty : bool) (opts : list Option_)
  : M (option error) :=
  read <- ReadAll r ;;
  let '(jsonBytes, err) := read in
  match err with
  | Some err => ret (Some err)
  | None =>
      match j2c jsonBytes with
      | (_, Some err) => ret (Some err)
      | (csvData, None) =>
          let buf := EmptyString in
          let buf := buf ++ HeaderLine csvData in
          let buf := buf ++ Row1st csvData in
          match ToSchema A buf opts with
          | (_, Some err) => ret (Some err)
          | (None, None) => ret (Some (LibError "nil pointer dereference"))
          | (Some schema, None) =>
              if pretty
              then
                let serializableSchema := toSerializableSchema schema in
                match json_MarshalIndent J EmptyString "  " serializableSchema with
                | (_, Some err) => ret (Some err)
                | (jsonBytes, None) => Write writer jsonBytes
                end
              else Write writer (Schema_String A schema ++ nl)
          end
      end
  end.

Definition close_input : M unit :=
  cliApp <- getApp ;;
  emit (EvClose (Input cliApp)) ;;;
  match File_Close E (Input cliApp) with
  | Some err =>
      cliApp <- getApp ;;
      Fprint_ (Output cliApp) ("Error closing input file: " ++ Error err ++ nl) ;;;
      setExitCode 1
  | None => ret tt
  end.

Definition close_output : M unit :=
  cliApp <- getApp ;;
  emit (EvClose (Output cliApp)) ;;;
  match File_Close E (Output cliApp) with
  | Some err =>
      cliApp <- getApp ;;
      Fprint_ (Output cliApp) ("Error closing output file: " ++ Error err ++ nl) ;;;
      setExitCode 1
  | None => ret tt
  end.

(** package main, cli.run *)
Definition cli_run : M Z :=
  cliApp <- getApp ;;
  match parseFlags cliApp with
  | (_, Some err) =>
      Fprint_ (Output cliApp) (Error err ++ nl) ;;; ret 1%Z
  | ((pretty, includeColumns, columnTypes, inputFile, outputFile), None) =>
      err <- openInput inputFile ;;
      match err with
      | Some err =>
          cliApp <- getApp ;;
          Fprint_ (Output cliApp) ("Error opening input file: " ++ Error err ++ nl) ;;;
          ret 1%Z
      | None =>
          with_defer close_input
            (err <- openOutput outputFile ;;
             match err with
             | Some err =>
                 cliApp <- getApp ;;
                 Fprint_ (Output cliApp)
                   ("Error creating output file: " ++ Error err ++ nl) ;;;
                 ret 1%Z
             | None =>
                 with_defer close_output
                   (let opts := createOptions includeColumns columnTypes in
                    cliApp <- getApp ;;
                    err <- run (Input cliApp) (Output cliApp) pretty opts ;;
                    match err with
                    | Some err =>
                        cliApp <- getApp ;;
                        Fprint_ (Output cliApp) ("Error: " ++ Error err ++ nl) ;;;
                        ret 1%Z
                    | None =>
                        cliApp <- getApp ;;
                        ret (ExitCode cliApp)
                    end)
             end)
      end
  end.

(** package main, main: the process exit code. *)
Definition main (args : list string) : Z * world :=
  let cliApp := {| Input := Stdin; Output := Stdout; Args := args; ExitCode := 0 |} in
  cli_run {| app := cliApp; trace := [] |}.
End Command.

(** * Notions used by the properties *)

(** ** Ranging over a map *)

(** Two ways to range over a map: in the order of the map's list of
    entries, and in the reverse order. *)
Program Definition iter_fwd : MapIter :=
  {| maps_Keys := fun m => (map_to_list m).*1 |}.
Next Obligation. reflexivity. Qed.

Program Definition iter_rev : MapIter :=
  {| maps_Keys := fun m => reverse (map_to_list m).*1 |}.
Next Obligation. intros m. apply reverse_Permutation. Qed.

(** The keys that [MapToHeaderStrsSorted] returns. *)
Definition sorted_keys (it : MapIter) (j : JsonMapObject) : list string :=
  (MapToHeaderStrsSorted it j).1.

(** ** Leaves and alignment *)

(** A leaf of a JSON object: a string, a number or a boolean. *)
Definition is_leaf (v : any) : bool :=
  match v with
  | VString _ | VFloat64 _ | VBool _ => true
  | _ => false
  end.

Definition leaf_only (j : JsonMapObject) : Prop :=
  map_Forall (fun _ v => is_leaf v = true) j.

(** The entry [s] of the row is the text of the value stored under [k]. *)
Definition aligned (J : Json) (j : JsonMapObject) (k s : string) : Prop :=
  exists v, j !! k = Some v /\ val2str J v = (s, None).

(** ** Decoded numbers and their text *)




(** The number that a string of decimal digits denotes, read after the
    digits of [v]. *)
Definition digit_value (c : ascii) : Z := Z.of_N (N_of_ascii c) - 48.

Fixpoint value_from (v : Z) (s : string) : Z :=
  match s with
  | EmptyString => v
  | String c r => value_from (10 * v + digit_value c) r
  end.

Definition digits_value (s : string) : Z := value_from 0 s.

(** ** The pretty form *)

(** The type name of the pretty form. *)
Definition pretty_type (t : DataType) : string :=
  match t with
  | Float64Type => "float64"
  | StringType => "utf8"
  | BooleanType => "bool"
  | OtherType name => name
  end.

Definition pretty_field (f : Field) : SerializableField :=
  {| SF_Name := Name f; SF_Type := pretty_type (Type_ f); SF_Nullable := Nullable f |}.

(** The document of the pretty form, written out: two spaces before the
    fields key and the closing bracket, four before the braces of an
    element, six before its three members. *)
Definition pretty_element (J : Json) (f : SerializableField) : string :=
  "    {" ++ nl
    ++ "      " ++ key "name" ++ json_quote J (SF_Name f) ++ "," ++ nl
    ++ "      " ++ key "type" ++ json_quote J (SF_Type f) ++ "," ++ nl
    ++ "      " ++ key "nullable" ++ json_bool (SF_Nullable f) ++ nl
    ++ "    }".

Definition pretty_document (J : Json) (l : list SerializableField) : string :=
  match l with
  | [] => "{" ++ nl ++ "  " ++ key "fields" ++ "[]" ++ nl ++ "}"
  | _ =>
      "{" ++ nl ++ "  " ++ key "fields" ++ "[" ++ nl
        ++ string_join ("," ++ nl) (map (pretty_element J) l) ++ nl
        ++ "  ]" ++ nl ++ "}"
  end.

(** ** Tokens of the -types argument *)

Fixpoint has_byte (c : ascii) (s : string) : bool :=
  match s with
  | EmptyString => false
  | String x r => Ascii.eqb x c || has_byte c r
  end.

(** A token of the -types argument that does not split at colons into
    exactly two parts. *)
Definition malformed (tok : string) : bool :=
  negb (Nat.eqb (length (strings_Split tok ":")) expectedTypeMappingParts).

(** ** The start of a run *)

(** The [cli] value that [main] builds, and the world before the run. *)
Definition init_cli (args : list string) : cli :=
  {| Input := Stdin; Output := Stdout; Args := args; ExitCode := 0 |}.

Definition init_world (args : list string) : world :=
  {| app := init_cli args; trace := [] |}.

(** * Collaborators for the examples *)

(** The text of the object with b = 1.5 and a = true. *)
Definition example_text : string :=
  "{" ++ String dquote ("b" ++ String dquote (": 1.5, "
      ++ String dquote ("a" ++ String dquote ": true}"))).

(** 1.5 as a binary64: mantissa 3 * 2^51, exponent -52. *)
Definition float_1_5 : float64 := S754_finite false 6755399441055744 (-52).

Definition example_object : JsonMapObject :=
  <["b" := VFloat64 float_1_5]> (<["a" := VBool true]> ∅).

(** An encoding/json that decodes the one text above and encodes nil. *)
Definition example_Json : Json :=
  {| json_Unmarshal := fun b =>
       if String.eqb b example_text then (example_object, None)
       else (∅, Some "unexpected end of JSON input");
     json_Marshal := fun v =>
       match v with
       | VNil => ("null", None)
       | _ => (EmptyString, Some "json: unsupported value")
       end;
     json_quote := fun s => String dquote (s ++ String dquote EmptyString) |}.

Definition default_flags : FlagValues :=
  {| fv_inputFile := EmptyString; fv_outputFile := EmptyString;
     fv_pretty := false; fv_include := EmptyString; fv_types := EmptyString |}.

(** An environment: the flag set accepts no argument or a single -types
    argument; the standard input holds the example text; writes succeed;
    closing the standard output gives [close_out]. *)
Definition example_Env (close_out : option error) : Env :=
  {| flag_Parse := fun args =>
       match args with
       | [] => (default_flags, None)
       | [flag; value] =>
           if String.eqb flag "-types"
           then ({| fv_inputFile := EmptyString; fv_outputFile := EmptyString;
                    fv_pretty := false; fv_include := EmptyString;
                    fv_types := value |}, None)
           else (default_flags,
                 Some (LibError "flag provided but not defined"))
       | _ => (default_flags, Some (LibError "flag provided but not defined"))
       end;
     os_Open := fun _ => Some (LibError "no such file or directory");
     os_Create := fun _ => Some (LibError "permission denied");
     io_ReadAll := fun f =>
       match f with
       | Stdin => (example_text, None)
       | _ => (EmptyString, Some (LibError "bad file descriptor"))
       end;
     File_Write := fun _ _ => None;
     File_Close := fun f =>
       match f with
       | Stdout => close_out
       | _ => None
       end |}.

(** An Arrow reader that produces one record batch of two columns. *)
Definition example_Schema : Schema :=
  {| fields := [ {| Name := "a"; Type_ := BooleanType; Nullable := true |};
                 {| Name := "b"; Type_ := Float64Type; Nullable := true |} ] |}.

Definition example_Arrow : Arrow :=
  {| ac_NewInferringReader := fun _ _ =>
       {| r_rest := [ {| rec_Schema := example_Schema |} ];
          r_cur := None; r_refs := 1 |};
     Schema_String := fun _ => "schema" |}.

(** The error of a failing close. *)
Definition close_error : error := LibError "input/output error".

(** * Notions used by the further properties *)

(** The value stored under a key has a text. *)
Definition stringifies (J : Json) (v : any) : Prop := (val2str J v).2 = None.

(** An object with a value that the example encoder refuses. *)
Definition refused_object : JsonMapObject :=
  <["c" := VSlice []]> (<["b" := VMap ∅]> (<["a" := VBool true]> ∅)).

(** One CSV line of the writer: the fields, then a newline. *)
Definition csv_line (record : list string) : string :=
  write_fields 0 record ++ nl.

(** What [run] writes for a schema. *)
Definition output_text (J : Json) (A : Arrow) (pretty : bool) (schema : Schema)
  : string :=
  if pretty then pretty_document J (map pretty_field (fields schema))
  else Schema_String A schema ++ nl.

(** The bytes that [run] hands to the Arrow reader for an input. *)
Definition csv_fragment (J : Json) (ranges : nat -> MapIter) (input : string)
  : string :=
  HeaderLine (j2c J ranges input).1 ++ Row1st (j2c J ranges input).1.

(** The two parts of a well-formed pair of the -types argument. *)
Definition pair_name (p : string) : string :=
  nth 0 (strings_Split p ":") EmptyString.
Definition pair_type (p : string) : string :=
  nth 1 (strings_Split p ":") EmptyString.

(** The type that the last pair for the column [k] asks for. *)
Fixpoint last_type (pairs : list string) (k : string) : option DataType :=
  match pairs with
  | [] => None
  | p :: rest =>
      match last_type rest k with
      | Some t => Some t
      | None =>
          if String.eqb (pair_name p) k
          then Some (typeFromString (pair_type p)) else None
      end
  end.

(** The handles of a run with the given paths, and whether opening them
    fails. *)
Definition in_file (inputFile : string) : File :=
  if String.eqb inputFile EmptyString then Stdin else OsFile inputFile.
Definition out_file (outputFile : string) : File :=
  if String.eqb outputFile EmptyString then Stdout else OsFile outputFile.

Definition input_fails (E : Env) (inputFile : string) : bool :=
  if String.eqb inputFile EmptyString then false
  else match os_Open E inputFile with Some _ => true | None => false end.
Definition output_fails (E : Env) (outputFile : string) : bool :=
  if String.eqb outputFile EmptyString then false
  else match os_Create E outputFile with Some _ => true | None => false end.

Definition is_close (e : event) : bool :=
  match e with EvClose _ => true | _ => false end.

(** The cli value with one field assigned. *)
Definition with_Input (c : cli) (f : File) : cli :=
  {| Input := f; Output := Output c; Args := Args c; ExitCode := ExitCode c |}.
Definition with_Output (c : cli) (f : File) : cli :=
  {| Input := Input c; Output := f; Args := Args c; ExitCode := ExitCode c |}.
Definition with_ExitCode (c : cli) (z : Z) : cli :=
  {| Input := Input c; Output := Output c; Args := Args c; ExitCode := z |}.


(** The events of opening the named files, and of closing a handle [f]
    while the messages go to [out]. *)
Definition open_events (inputFile outputFile : string) : list event :=
  ((if String.eqb inputFile EmptyString then [] else [EvOpen inputFile])
   ++ (if String.eqb outputFile EmptyString then [] else [EvCreate outputFile]))%list.

Definition close_events (E : Env) (f out : File) (what : string) : list event :=
  EvClose f ::
  match File_Close E f with
  | Some err => [EvWrite out ("Error closing " ++ what ++ " file: " ++ Error err ++ nl)]
  | None => []
  end.

Definition is_write_to (out : File) (ev : event) : Prop :=
  exists s, ev = EvWrite out s.

(** An environment with the flag values fixed, every open and create
    giving the same result, and the example text on every input. *)
Definition fixed_Env (fv : FlagValues) (open_res create_res : option error)
    (close_res : File -> option error) : Env :=
  {| flag_Parse := fun _ => (fv, None);
     os_Open := fun _ => open_res;
     os_Create := fun _ => create_res;
     io_ReadAll := fun _ => (example_text, None);
     File_Write := fun _ _ => None;
     File_Close := close_res |}.

Definition flags_with_files (inputFile outputFile : string) : FlagValues :=
  {| fv_inputFile := inputFile; fv_outputFile := outputFile;
     fv_pretty := true; fv_include := EmptyString; fv_types := EmptyString |}.

(** Environments for three runs: an input file that does not open, an
    output file that cannot be created, and a standard input whose close
    fails. *)
Definition no_input_Env : Env :=
  fixed_Env (flags_with_files "in.json" EmptyString)
    (Some (LibError "no such file or directory")) None (fun _ => None).

Definition no_output_Env : Env :=
  fixed_Env (flags_with_files EmptyString "out.json")
    None (Some (LibError "permission denied")) (fun _ => None).

Definition bad_close_Env : Env :=
  fixed_Env (flags_with_files EmptyString EmptyString) None None
    (fun f => match f with Stdin => Some close_error | _ => None end).

(** A character of a number or a boolean as val2str writes them. *)
Definition plain_char (c : ascii) : bool :=
  is_digit c || Ascii.eqb c "-" || Ascii.eqb c "."
  || ((97 <=? N_of_ascii c) && (N_of_ascii c <=? 122))%N.

Fixpoint all_plain (s : string) : bool :=
  match s with
  | EmptyString => true
  | String c r => plain_char c && all_plain r
  end.

(** * Properties *)

(** ** The byte order on strings *)

Lemma string_compare_lt_trans a b c :
  String.compare a b = Lt -> String.compare b c = Lt -> String.compare a c = Lt.
Proof.
  intros Hab Hbc.
  apply String_as_OT.cmp_lt.
  apply String_as_OT.lt_trans with b; apply String_as_OT.cmp_lt; assumption.
Qed.

Lemma string_le_cases a b :
  string_le a b <-> String.compare a b = Lt \/ a = b.
Proof.
  unfold string_le, String.leb. split.
  - destruct (String.compare a b) eqn:Hc; intros H; try discriminate.
    + right. now apply String.compare_eq_iff.
    + now left.
  - intros [H | ->].
    + now rewrite H.
    + assert (Hr : String.compare b b = Eq) by now apply String_as_OT.cmp_eq.
      now rewrite Hr.
Qed.

#[global] Instance string_le_total : Total string_le.
Proof. intros a b. apply String.leb_total. Qed.

#[global] Instance string_le_antisym : AntiSymm (=) string_le.
Proof. intros a b. apply String.leb_antisym. Qed.

#[global] Instance string_le_trans : Transitive string_le.
Proof.
  intros a b c Hab Hbc.
  apply string_le_cases in Hab, Hbc. apply string_le_cases.
  destruct Hab as [Hab | ->]; destruct Hbc as [Hbc | ->]; auto.
  left. eapply string_compare_lt_trans; eassumption.
Qed.

Lemma string_lt_le_neq a b : string_lt a b <-> string_le a b /\ a <> b.
Proof.
  rewrite string_le_cases. unfold string_lt, String.ltb. split.
  - destruct (String.compare a b) eqn:Hc; intros H; try discriminate.
    split; [now left |]. intros ->.
    assert (Hr : String.compare b b = Eq) by now apply String_as_OT.cmp_eq.
    congruence.
  - intros [[H | H] Hne]; [now rewrite H | contradiction].
Qed.

(** A list sorted by [<=] with no repeated element is strictly
    ascending. *)
Lemma StronglySorted_le_lt (l : list string) :
  StronglySorted string_le l -> NoDup l -> StronglySorted string_lt l.
Proof.
  induction 1 as [| x l Hs IH Hx]; intros Hnd; constructor.
  - apply IH. now apply NoDup_cons_1_2 in Hnd.
  - apply NoDup_cons in Hnd as [Hnotin _].
    rewrite Forall_forall in Hx. apply Forall_forall. intros y Hy.
    apply string_lt_le_neq. split.
    + now apply Hx.
    + intros ->. now apply Hnotin.
Qed.

(** ** The sorted keys *)

Section SortedKeys.
Variable it : MapIter.
Variable j : JsonMapObject.

Lemma sorted_keys_perm : sorted_keys it j ≡ₚ (map_to_list j).*1.
Proof.
  unfold sorted_keys, MapToHeaderStrsSorted, slices_Sort. simpl.
  rewrite merge_sort_Permutation. apply maps_Keys_perm.
Qed.

Lemma sorted_keys_NoDup : NoDup (sorted_keys it j).
Proof. rewrite sorted_keys_perm. apply NoDup_fst_map_to_list. Qed.

Lemma sorted_keys_le : StronglySorted string_le (sorted_keys it j).
Proof.
  unfold sorted_keys, MapToHeaderStrsSorted, slices_Sort. simpl.
  apply StronglySorted_merge_sort; apply _.
Qed.

Lemma sorted_keys_lt : StronglySorted string_lt (sorted_keys it j).
Proof. apply StronglySorted_le_lt; [apply sorted_keys_le | apply sorted_keys_NoDup]. Qed.

Lemma sorted_keys_elem k : k ∈ sorted_keys it j <-> is_Some (j !! k).
Proof.
  rewrite sorted_keys_perm, list_elem_of_fmap. split.
  - intros [[k' v] [-> Hin]]. apply elem_of_map_to_list in Hin. simpl. eauto.
  - intros [v Hv]. exists (k, v). split; [reflexivity |].
    now apply elem_of_map_to_list.
Qed.

Lemma MapToHeaderStrsSorted_ok : MapToHeaderStrsSorted it j = (sorted_keys it j, None).
Proof. reflexivity. Qed.
End SortedKeys.

(** The sorted keys do not depend on the order of the range. *)
Lemma sorted_keys_indep (it it' : MapIter) (j : JsonMapObject) :
  sorted_keys it j = sorted_keys it' j.
Proof.
  apply (StronglySorted_unique string_le).
  - apply sorted_keys_le.
  - apply sorted_keys_le.
  - now rewrite !sorted_keys_perm.
Qed.

Lemma MapToHeaderStrsSorted_indep (it it' : MapIter) (j : JsonMapObject) :
  MapToHeaderStrsSorted it j = MapToHeaderStrsSorted it' j.
Proof. rewrite !MapToHeaderStrsSorted_ok. f_equal. apply sorted_keys_indep. Qed.

Lemma MapToValueStrsSorted_indep (it it' : MapIter) (J : Json) (j : JsonMapObject) :
  MapToValueStrsSorted it J j = MapToValueStrsSorted it' J j.
Proof.
  unfold MapToValueStrsSorted. now rewrite (MapToHeaderStrsSorted_indep it it').
Qed.

(** ** The flattener *)

Lemma val2str_leaf J v : is_leaf v = true -> (val2str J v).2 = None.
Proof. destruct v; simpl; intros H; try discriminate; reflexivity. Qed.

Lemma values_loop_leaves J (j : JsonMapObject) keys acc :
  Forall (fun k => exists v, j !! k = Some v /\ is_leaf v = true) keys ->
  exists vals,
    values_loop J j keys acc = ((acc ++ vals)%list, None) /\
    Forall2 (aligned J j) keys vals.
Proof.
  intros H. revert acc.
  induction H as [| k keys [v [Hk Hleaf]] _ IH]; intros acc.
  - exists []. simpl. rewrite app_nil_r. split; [reflexivity | constructor].
  - simpl. rewrite Hk.
    pose proof (val2str_leaf J v Hleaf) as Hnone.
    destruct (val2str J v) as [s oe] eqn:Hv. simpl in Hnone. subst oe.
    destruct (IH (acc ++ [s])%list) as [vals [Hloop Hall]].
    exists (s :: vals). split.
    + rewrite Hloop. now rewrite <- app_assoc.
    + constructor; [| exact Hall]. exists v. split; assumption.
Qed.

(** C1: for a JSON object whose values are all strings, numbers or
    booleans, the header keys come out strictly ascending in byte order
    (so without repetition) and are exactly the keys of the object, and
    the row has as many entries as the header, the i-th entry being the
    text of the value stored under the i-th key; this holds whatever the
    order of the two map iterations is. *)
Theorem C1_flatten_sorted_aligned
    (it_h it_v : MapIter) (J : Json) (j : JsonMapObject) :
  leaf_only j ->
  exists keys vals,
    MapToHeaderStrsSorted it_h j = (keys, None) /\
    MapToValueStrsSorted it_v J j = (vals, None) /\
    StronglySorted string_lt keys /\
    NoDup keys /\
    (forall k, k ∈ keys <-> is_Some (j !! k)) /\
    length vals = length keys /\
    Forall2 (aligned J j) keys vals.
Proof.
  intros Hleaf.
  assert (Hkeys : Forall (fun k => exists v, j !! k = Some v /\ is_leaf v = true)
                         (sorted_keys it_h j)).
  { apply Forall_forall. intros k Hk.
    apply sorted_keys_elem in Hk as [v Hv]. exists v. split; [exact Hv |].
    exact (Hleaf k v Hv). }
  destruct (values_loop_leaves J j _ [] Hkeys) as [vals [Hloop Hall]].
  exists (sorted_keys it_h j), vals. repeat split.
  - unfold MapToValueStrsSorted.
    rewrite (MapToHeaderStrsSorted_indep it_v it_h), MapToHeaderStrsSorted_ok.
    exact Hloop.
  - apply sorted_keys_lt.
  - apply sorted_keys_NoDup.
  - apply sorted_keys_elem.
  - apply sorted_keys_elem.
  - symmetry. eapply Forall2_length. exact Hall.
  - exact Hall.
Qed.

(** ** The key-not-found branch *)

Lemma val2str_error J v e :
  (val2str J v).2 = Some e -> exists msg, e = json_error msg.
Proof.
  destruct v; simpl; try discriminate;
    unfold Encoder_Encode;
    (destruct (json_Marshal J _) as [s [msg |]]; simpl; intros H;
     [injection H as <-; eauto | discriminate]).
Qed.

Lemma values_loop_error J (j : JsonMapObject) keys acc :
  Forall (fun k => is_Some (j !! k)) keys ->
  match (values_loop J j keys acc).2 with
  | Some e => exists msg, e = json_error msg
  | None => True
  end.
Proof.
  intros H. revert acc. induction H as [| k keys [v Hk] _ IH]; intros acc.
  - exact I.
  - simpl. rewrite Hk.
    destruct (val2str J v) as [s [e |]] eqn:Hv.
    + simpl. apply (val2str_error J v). now rewrite Hv.
    + apply IH.
Qed.

(** C8: every key of the sorted key list is present in the map it was
    taken from, so the lookup in the loop of MapToValueStrsSorted never
    misses: an error returned by the function, if any, comes from the
    JSON encoder and is not ErrKeyNotFound. *)
Theorem C8_key_not_found_unreachable
    (it : MapIter) (J : Json) (jsonMap : JsonMapObject) :
  Forall (fun k => is_Some (jsonMap !! k)) (MapToHeaderStrsSorted it jsonMap).1 /\
  match (MapToValueStrsSorted it J jsonMap).2 with
  | Some e => (exists msg, e = json_error msg) /\ errors_Is e ErrKeyNotFound = false
  | None => True
  end.
Proof.
  assert (Hkeys : Forall (fun k => is_Some (jsonMap !! k)) (sorted_keys it jsonMap)).
  { apply Forall_forall. intros k Hk. now apply sorted_keys_elem in Hk. }
  split; [exact Hkeys |].
  unfold MapToValueStrsSorted. rewrite MapToHeaderStrsSorted_ok.
  pose proof (values_loop_error J jsonMap _ [] Hkeys) as H.
  destruct (values_loop J jsonMap (sorted_keys it jsonMap) []) as [vals [e |]]; simpl in *.
  - split; [exact H |]. destruct H as [msg ->]. reflexivity.
  - exact I.
Qed.

(** ** The value stringifier *)

Lemma is_digit_digit_char d : is_digit (digit_char d) = true.
Proof.
  unfold digit_char.
  repeat match goal with
         | |- context [match ?x with _ => _ end] => destruct x
         end; reflexivity.
Qed.

Lemma all_digits_dec_digits fuel n acc :
  all_digits acc = true -> all_digits (dec_digits fuel n acc) = true.
Proof.
  revert n acc. induction fuel as [| k IH]; intros n acc Hacc; simpl.
  - exact Hacc.
  - destruct (n <? 10)%Z.
    + simpl. now rewrite is_digit_digit_char.
    + apply IH. simpl. now rewrite is_digit_digit_char.
Qed.

Lemma dec_digits_nonempty fuel n acc :
  acc <> EmptyString -> dec_digits fuel n acc <> EmptyString.
Proof.
  revert n acc. induction fuel as [| k IH]; intros n acc Hacc; simpl.
  - exact Hacc.
  - destruct (n <? 10)%Z; [discriminate | apply IH; discriminate].
Qed.

Lemma itoa_digits n : itoa n <> EmptyString /\ all_digits (itoa n) = true.
Proof.
  unfold itoa. split.
  - simpl. destruct (n <? 10)%Z; [discriminate | apply dec_digits_nonempty; discriminate].
  - now apply all_digits_dec_digits.
Qed.

Lemma frac6_digits r : String.length (frac6 r) = 6 /\ all_digits (frac6 r) = true.
Proof.
  split; [reflexivity |].
  unfold frac6. simpl. now rewrite !is_digit_digit_char.
Qed.




(** ** The example of the specification *)

Lemma header_line_indep (it it' : MapIter) (f g : MapToValueStrings) j :
  ToMapToHeaderLine {| toHeaderStrings := MapToHeaderStrsSorted it; toValueStrings := f |} j =
  ToMapToHeaderLine {| toHeaderStrings := MapToHeaderStrsSorted it'; toValueStrings := g |} j.
Proof.
  unfold ToMapToHeaderLine. simpl toHeaderStrings.
  now rewrite (MapToHeaderStrsSorted_indep it it').
Qed.

Lemma row_1st_indep (it it' : MapIter) (J : Json) (f g : MapToHeaderStrings) j :
  ToMapToRow1st {| toHeaderStrings := f; toValueStrings := MapToValueStrsSorted it J |} j =
  ToMapToRow1st {| toHeaderStrings := g; toValueStrings := MapToValueStrsSorted it' J |} j.
Proof.
  unfold ToMapToRow1st. simpl toValueStrings.
  now rewrite (MapToValueStrsSorted_indep it it').
Qed.

(** The converter of [run] does not depend on the order of the ranges. *)
Lemma j2c_indep (J : Json) (ranges ranges' : nat -> MapIter) (input : string) :
  j2c J ranges input = j2c J ranges' input.
Proof.
  unfold j2c, ToJsonToCsvRaw.
  destruct (json_Unmarshal J input) as [jmap [msg |]]; [reflexivity |].
  simpl toHeaderLine. simpl toRow1st.
  rewrite (header_line_indep (ranges 0) (ranges' 0) _
             (MapToValueStrsSorted (ranges' 1) J)).
  rewrite (row_1st_indep (ranges 3) (ranges' 3) J _
             (MapToHeaderStrsSorted (ranges' 2))).
  reflexivity.
Qed.

(** C3: when the decoder reads the text of the object with b = 1.5 and
    a = true, the converter of the pipeline gives the header line a,b and
    the first row true,1.500000, each ended by a newline, whatever the
    order of the map iterations; the two joined are the two-line CSV
    fragment. *)
Theorem C3_example_fragment (J : Json) (ranges : nat -> MapIter) :
  json_Unmarshal J example_text = (example_object, None) ->
  j2c J ranges example_text =
    ({| HeaderLine := "a,b" ++ nl; Row1st := "true,1.500000" ++ nl |}, None) /\
  HeaderLine (j2c J ranges example_text).1 ++ Row1st (j2c J ranges example_text).1
    = "a,b" ++ nl ++ "true,1.500000" ++ nl.
Proof.
  intros Hdec.
  assert (H : j2c J ranges example_text =
    ({| HeaderLine := "a,b" ++ nl; Row1st := "true,1.500000" ++ nl |}, None)).
  { rewrite (j2c_indep J ranges (fun _ => iter_fwd)).
    unfold j2c, ToJsonToCsvRaw. rewrite Hdec. vm_compute. reflexivity. }
  split; [exact H |]. rewrite H. reflexivity.
Qed.

Lemma C3_example_fragment_witness :
  json_Unmarshal example_Json example_text = (example_object, None) /\
  j2c example_Json (fun _ => iter_rev) example_text =
    ({| HeaderLine := "a,b" ++ nl; Row1st := "true,1.500000" ++ nl |}, None) /\
  HeaderLine (j2c example_Json (fun _ => iter_rev) example_text).1
    ++ Row1st (j2c example_Json (fun _ => iter_rev) example_text).1
    = "a,b" ++ nl ++ "true,1.500000" ++ nl.
Proof.
  split; [reflexivity |].
  exact (C3_example_fragment example_Json (fun _ => iter_rev) eq_refl).
Defined.


Lemma C1_flatten_sorted_aligned_witness :
  leaf_only example_object /\
  exists keys vals,
    MapToHeaderStrsSorted iter_fwd example_object = (keys, None) /\
    MapToValueStrsSorted iter_rev example_Json example_object = (vals, None) /\
    StronglySorted string_lt keys /\
    NoDup keys /\
    (forall k, k ∈ keys <-> is_Some (example_object !! k)) /\
    length vals = length keys /\
    Forall2 (aligned example_Json example_object) keys vals.
Proof.
  assert (H : leaf_only example_object).
  { unfold leaf_only, example_object.
    apply map_Forall_insert_2; [reflexivity |].
    apply map_Forall_insert_2; [reflexivity |].
    apply map_Forall_empty. }
  split; [exact H |].
  exact (C1_flatten_sorted_aligned iter_fwd iter_rev example_Json example_object H).
Defined.

(** ** The pretty serializer *)

Lemma toSerializableSchema_loop_spec (fs : list Field) :
  forall (done : list SerializableField),
    toSerializableSchema_loop (length done) fs
      (done ++ replicate (length fs) zero_SerializableField)%list
    = (done ++ map pretty_field fs)%list.
Proof.
  induction fs as [| field rest IH]; intros done.
  - reflexivity.
  - simpl toSerializableSchema_loop.
    assert (Hins : forall x : SerializableField,
      <[length done := x]>
        (done ++ replicate (length (field :: rest)) zero_SerializableField)%list
      = ((done ++ [x]) ++ replicate (length rest) zero_SerializableField)%list).
    { intros x. simpl. rewrite insert_app_r_alt by lia.
      rewrite Nat.sub_diag. simpl. now rewrite <- app_assoc. }
    assert (Hlen : forall x : SerializableField,
      S (length done) = length (done ++ [x])%list).
    { intros x. rewrite length_app. simpl. lia. }
    assert (Hgoal : forall x : SerializableField, x = pretty_field field ->
      toSerializableSchema_loop (S (length done)) rest
        (<[length done := x]>
           (done ++ replicate (length (field :: rest)) zero_SerializableField)%list)
      = (done ++ map pretty_field (field :: rest))%list).
    { intros x ->. rewrite Hins, (Hlen (pretty_field field)), IH.
      simpl. now rewrite <- app_assoc. }
    unfold pretty_field, pretty_type in Hgoal.
    destruct (Type_ field) eqn:Ht; apply Hgoal; simpl; reflexivity.
Qed.

Lemma toSerializableSchema_fields (schema : Schema) :
  SS_Fields (toSerializableSchema schema) = map pretty_field (fields schema).
Proof.
  unfold toSerializableSchema, NumFields, Fields. simpl.
  exact (toSerializableSchema_loop_spec (fields schema) []).
Qed.

Lemma string_app_assoc (a b c : string) : (a ++ b) ++ c = a ++ (b ++ c).
Proof.
  induction a as [| x a IH]; [reflexivity |].
  change (String x ((a ++ b) ++ c) = String x (a ++ (b ++ c))). now rewrite IH.
Qed.

Lemma string_app_nil_r (a : string) : a ++ EmptyString = a.
Proof.
  induction a as [| x a IH]; [reflexivity |].
  change (String x (a ++ EmptyString) = String x a). now rewrite IH.
Qed.

Lemma string_join_prefix (p sep : string) (l : list string) :
  l <> [] ->
  p ++ string_join (sep ++ p) l = string_join sep (map (String.append p) l).
Proof.
  induction l as [| x l IH]; intros Hne; [contradiction |].
  destruct l as [| y l].
  - reflexivity.
  - change (p ++ (x ++ (sep ++ p) ++ string_join (sep ++ p) (y :: l))
            = (p ++ x) ++ sep ++ string_join sep (map (String.append p) (y :: l))).
    rewrite <- IH by discriminate.
    now rewrite !string_app_assoc.
Qed.

Lemma marshal_field_pretty (J : Json) (f : SerializableField) :
  "    " ++ marshal_field J EmptyString "  " 2 f = pretty_element J f.
Proof.
  reflexivity.
Qed.

Lemma json_MarshalIndent_pretty (J : Json) (s : SerializableSchema) :
  json_MarshalIndent J EmptyString "  " s = (pretty_document J (SS_Fields s), None).
Proof.
  unfold json_MarshalIndent, pretty_document, marshal_fields. f_equal.
  destruct (SS_Fields s) as [| f l] eqn:Hl.
  - reflexivity.
  - assert (Hjoin :
      "    " ++ string_join ("," ++ newline EmptyString "  " 2)
                 (map (marshal_field J EmptyString "  " 2) (f :: l))
      = string_join ("," ++ nl) (map (pretty_element J) (f :: l))).
    { replace ("," ++ newline EmptyString "  " 2) with (("," ++ nl) ++ "    ")
        by reflexivity.
      rewrite string_join_prefix by discriminate.
      rewrite map_map. f_equal. }
    rewrite <- Hjoin.
    unfold newline, nl. cbn [string_repeat]. rewrite !string_app_assoc. reflexivity.
Qed.

(** C4: the pretty form of a schema has one element per field of the
    schema, in the order of the schema, with the field's name and
    nullability and the type name float64, utf8 or bool for the three known
    types and the type's own name for any other; the document is a single
    object with the key fields, indented by two spaces per level. *)
Theorem C4_pretty_serializer (J : Json) (schema : Schema) :
  SS_Fields (toSerializableSchema schema) = map pretty_field (fields schema) /\
  length (SS_Fields (toSerializableSchema schema)) = NumFields schema /\
  json_MarshalIndent J EmptyString "  " (toSerializableSchema schema)
    = (pretty_document J (map pretty_field (fields schema)), None).
Proof.
  split; [apply toSerializableSchema_fields |]. split.
  - rewrite toSerializableSchema_fields. apply length_map.
  - rewrite json_MarshalIndent_pretty. now rewrite toSerializableSchema_fields.
Qed.

(** ** Type tokens *)

Lemma split_from_no_sep sep s cur :
  has_byte sep s = false -> split_from sep s cur = [cur ++ s].
Proof.
  revert cur. induction s as [| x s IH]; intros cur H; simpl in *.
  - now rewrite string_app_nil_r.
  - apply orb_false_iff in H as [Hx Hs]. rewrite Hx, IH by exact Hs.
    now rewrite string_app_assoc.
Qed.

Lemma split_from_pair sep a b cur :
  has_byte sep a = false -> has_byte sep b = false ->
  split_from sep (a ++ String sep b) cur = [cur ++ a; b].
Proof.
  revert cur. induction a as [| x a IH]; intros cur Ha Hb.
  - change (split_from sep (String sep b) cur = [cur ++ EmptyString; b]).
    simpl. rewrite Ascii.eqb_refl, string_app_nil_r.
    now rewrite split_from_no_sep by exact Hb.
  - change (split_from sep (String x (a ++ String sep b)) cur
            = [cur ++ String x a; b]).
    simpl in *. apply orb_false_iff in Ha as [Hx Ha].
    rewrite Hx, IH by assumption. now rewrite string_app_assoc.
Qed.

Lemma strings_Split_pair sep a b :
  has_byte sep a = false -> has_byte sep b = false ->
  strings_Split (a ++ String sep b) sep = [a; b].
Proof. intros Ha Hb. unfold strings_Split. now rewrite split_from_pair. Qed.

(** C6: for a pair name:type of the -types argument, the column name is
    mapped to the type of the token: the string type for string, the 64-bit
    float type for float64, the boolean type for bool, and the string type
    for every other token. *)
Theorem C6_typeFromString (name token : string) :
  has_byte ":" name = false ->
  has_byte ":" token = false ->
  parseFlags_loop [name ++ String ":" token] ∅
    = ({[ name := typeFromString token ]}, None) /\
  (token = "string" -> typeFromString token = StringType) /\
  (token = "float64" -> typeFromString token = Float64Type) /\
  (token = "bool" -> typeFromString token = BooleanType) /\
  (token <> "string" -> token <> "float64" -> token <> "bool" ->
   typeFromString token = StringType).
Proof.
  intros Hn Ht. split.
  - simpl. rewrite strings_Split_pair by assumption. reflexivity.
  - repeat split.
    + now intros ->.
    + now intros ->.
    + now intros ->.
    + intros H1 H2 H3. unfold typeFromString.
      apply String.eqb_neq in H1, H2, H3. now rewrite H1, H2, H3.
Qed.

Lemma C6_typeFromString_witness :
  has_byte ":" "status" = false /\
  has_byte ":" "float64" = false /\
  parseFlags_loop ["status" ++ String ":" "float64"] ∅
    = ({[ "status" := typeFromString "float64" ]}, None) /\
  ("float64" = "string" -> typeFromString "float64" = StringType) /\
  ("float64" = "float64" -> typeFromString "float64" = Float64Type) /\
  ("float64" = "bool" -> typeFromString "float64" = BooleanType) /\
  ("float64" <> "string" -> "float64" <> "float64" -> "float64" <> "bool" ->
   typeFromString "float64" = StringType).
Proof.
  split; [reflexivity |]. split; [reflexivity |].
  exact (C6_typeFromString "status" "float64" eq_refl eq_refl).
Defined.

(** ** The schema of the first record batch *)

(** C9: ToSchema returns the schema of the first record batch that the
    inferring reader produces, with no error, when there is one; when the
    reader produces none it returns no schema and the error
    ErrNoCsvRecordBatchGot, whose text is its own; the error is returned in
    no other case. *)
Theorem C9_ToSchema_first_batch (A : Arrow) (c : string) (opts : list Option_) :
  ToSchema A c opts =
    match r_rest (ToReader A c opts) with
    | rec :: _ => (Some (rec_Schema rec), None)
    | [] => (None, Some ErrNoCsvRecordBatchGot)
    end /\
  ((ToSchema A c opts).2 = Some ErrNoCsvRecordBatchGot
     <-> r_rest (ToReader A c opts) = []) /\
  ((ToSchema A c opts).1 = None <-> r_rest (ToReader A c opts) = []) /\
  Error ErrNoCsvRecordBatchGot = "no csv record batch got" /\
  errors_Is ErrNoCsvRecordBatchGot ErrKeyNotFound = false /\
  errors_Is ErrNoCsvRecordBatchGot ErrInvalidTypeMapping = false.
Proof.
  unfold ToSchema, ToSchema_reader, Reader_Next, Reader_RecordBatch.
  destruct (r_rest (ToReader A c opts)) as [| rec rest]; simpl.
  - repeat split; auto.
  - repeat split; auto; discriminate.
Qed.

(** ** The command: malformed type mappings *)

Lemma parseFlags_loop_malformed (pairs : list string) :
  existsb malformed pairs = true ->
  exists tok, In tok pairs /\ malformed tok = true /\
    forall columnTypes,
      parseFlags_loop pairs columnTypes
        = (∅, Some (Errorf_w ErrInvalidTypeMapping tok)).
Proof.
  induction pairs as [| p pairs IH]; simpl; intros H; [discriminate |].
  destruct (malformed p) eqn:Hp.
  - exists p. repeat split; auto.
    intros ct. unfold malformed in Hp. now rewrite Hp.
  - simpl in H. destruct (IH H) as [tok [Hin [Hbad Hloop]]].
    exists tok. repeat split; auto.
    intros ct. unfold malformed in Hp. rewrite Hp. apply Hloop.
Qed.

(** C5: when the -types argument is not empty and one of its
    comma-separated tokens does not split into exactly two parts at
    colons, parseFlags fails with an error wrapping ErrInvalidTypeMapping
    that names such a token, and the run ends with exit code 1 having
    done nothing but write that error to the standard output: no file is
    opened or created, nothing is read, and no schema text is written. *)
Theorem C5_malformed_types_fail_fast
    (J : Json) (A : Arrow) (E : Env) (ranges : nat -> MapIter)
    (args : list string) (fv : FlagValues) :
  flag_Parse E args = (fv, None) ->
  fv_types fv <> EmptyString ->
  existsb malformed (strings_Split (fv_types fv) ",") = true ->
  exists tok,
    In tok (strings_Split (fv_types fv) ",") /\
    malformed tok = true /\
    parseFlags E (init_cli args)
      = (noFlags, Some (Errorf_w ErrInvalidTypeMapping tok)) /\
    errors_Is (Errorf_w ErrInvalidTypeMapping tok) ErrInvalidTypeMapping = true /\
    main J A E ranges args =
      (1%Z, {| app := init_cli args;
               trace := [EvWrite Stdout ("invalid type mapping: " ++ tok ++ nl)] |}).
Proof.
  intros Hparse Hne Hbad.
  destruct (parseFlags_loop_malformed _ Hbad) as [tok [Hin [Htok Hloop]]].
  assert (Hpf : parseFlags E (init_cli args)
                = (noFlags, Some (Errorf_w ErrInvalidTypeMapping tok))).
  { unfold parseFlags. simpl Args. rewrite Hparse.
    apply String.eqb_neq in Hne. rewrite Hne. simpl negb. cbv iota.
    now rewrite Hloop. }
  exists tok. repeat split; auto.
  change (main J A E ranges args) with (cli_run J A E ranges (init_world args)).
  unfold cli_run, bind, getApp, init_world. cbn [app].
  rewrite Hpf. reflexivity.
Qed.

Lemma C5_malformed_types_fail_fast_witness :
  flag_Parse (example_Env None) ["-types"; "badtoken"]
    = ({| fv_inputFile := EmptyString; fv_outputFile := EmptyString;
          fv_pretty := false; fv_include := EmptyString;
          fv_types := "badtoken" |}, None) /\
  "badtoken" <> EmptyString /\
  existsb malformed (strings_Split "badtoken" ",") = true /\
  exists tok,
    In tok (strings_Split "badtoken" ",") /\
    malformed tok = true /\
    parseFlags (example_Env None) (init_cli ["-types"; "badtoken"])
      = (noFlags, Some (Errorf_w ErrInvalidTypeMapping tok)) /\
    errors_Is (Errorf_w ErrInvalidTypeMapping tok) ErrInvalidTypeMapping = true /\
    main example_Json example_Arrow (example_Env None) (fun _ => iter_fwd)
         ["-types"; "badtoken"] =
      (1%Z, {| app := init_cli ["-types"; "badtoken"];
               trace := [EvWrite Stdout ("invalid type mapping: " ++ tok ++ nl)] |}).
Proof.
  split; [reflexivity |]. split; [discriminate |]. split; [reflexivity |].
  refine (C5_malformed_types_fail_fast example_Json example_Arrow (example_Env None)
            (fun _ => iter_fwd) ["-types"; "badtoken"]
            {| fv_inputFile := EmptyString; fv_outputFile := EmptyString;
               fv_pretty := false; fv_include := EmptyString;
               fv_types := "badtoken" |} eq_refl _ eq_refl).
  discriminate.
Defined.

(** ** The command: independence of the iteration order *)

Lemma run_indep (J : Json) (A : Arrow) (E : Env) (ranges ranges' : nat -> MapIter)
    (r writer : File) (pretty : bool) (opts : list Option_) (w : world) :
  run J A E ranges r writer pretty opts w = run J A E ranges' r writer pretty opts w.
Proof.
  unfold run, bind.
  destruct (ReadAll E r w) as [[jsonBytes [err |]] w']; [reflexivity |].
  now rewrite (j2c_indep J ranges ranges').
Qed.

Lemma cli_run_indep (J : Json) (A : Arrow) (E : Env) (ranges ranges' : nat -> MapIter)
    (w : world) :
  cli_run J A E ranges w = cli_run J A E ranges' w.
Proof.
  unfold cli_run, with_defer, bind.
  destruct (getApp w) as [cliApp w0].
  destruct (parseFlags E cliApp)
    as [[[[[pretty includeColumns] columnTypes] inputFile] outputFile] [err |]];
    [reflexivity |].
  destruct (openInput E inputFile w0) as [[err |] w1]; [reflexivity |].
  destruct (openOutput E outputFile w1) as [[err |] w2]; [reflexivity |].
  destruct (getApp w2) as [cliApp2 w3].
  now rewrite (run_indep J A E ranges ranges').
Qed.

(** C10: with the decoder, the Arrow reader, the flag set and the files
    behaving as functions of their inputs, the header line, the first row,
    the outcome of the pipeline, its effects (every byte written, in
    order) and the exit code of the whole run are the same for any two
    choices of the orders in which the maps are iterated. *)
Theorem C10_iteration_order_irrelevant
    (J : Json) (A : Arrow) (E : Env) (ranges ranges' : nat -> MapIter)
    (args : list string) :
  (forall it it' j, MapToHeaderStrsSorted it j = MapToHeaderStrsSorted it' j) /\
  (forall input, j2c J ranges input = j2c J ranges' input) /\
  (forall r writer pretty opts w,
     run J A E ranges r writer pretty opts w
       = run J A E ranges' r writer pretty opts w) /\
  main J A E ranges args = main J A E ranges' args.
Proof.
  split; [apply MapToHeaderStrsSorted_indep |].
  split; [apply j2c_indep |].
  split; [intros; apply run_indep |].
  unfold main. apply cli_run_indep.
Qed.

(** ** The command: the exit code *)

Lemma run_app (J : Json) (A : Arrow) (E : Env) (ranges : nat -> MapIter)
    (r writer : File) (pretty : bool) (opts : list Option_) (w : world) :
  app (run J A E ranges r writer pretty opts w).2 = app w.
Proof.
  unfold run, bind, ReadAll, Write, emit, ret. simpl.
  destruct (io_ReadAll E r) as [jsonBytes [err |]]; [reflexivity |].
  destruct (j2c J ranges jsonBytes) as [csvData [err |]]; [reflexivity |].
  destruct (ToSchema A _ opts) as [[schema |] [err |]]; try reflexivity.
  destruct pretty; reflexivity.
Qed.

Lemma close_output_fails (E : Env) (w : world) (err : error) :
  File_Close E (Output (app w)) = Some err ->
  ExitCode (app (close_output E w).2) = 1%Z.
Proof.
  intros H. unfold close_output, bind, getApp, emit. cbn [app trace].
  rewrite H. reflexivity.
Qed.

Lemma close_input_keeps_1 (E : Env) (w : world) :
  ExitCode (app w) = 1%Z -> ExitCode (app (close_input E w).2) = 1%Z.
Proof.
  intros H. unfold close_input, bind, getApp, emit. cbn [app trace].
  destruct (File_Close E (Input (app w))); [reflexivity | exact H].
Qed.

(** C7, as the code has it: with the default input and output, when the
    flags parse and the pipeline succeeds, the value returned by cli.run
    is the exit code 0 that the return statement read, also when closing
    the standard output fails; the deferred close then sets the ExitCode
    field to 1, too late for the result. *)
Theorem C7_output_close_failure_exits_0
    (J : Json) (A : Arrow) (E : Env) (ranges : nat -> MapIter)
    (args : list string) (pretty : bool) (includeColumns : list string)
    (columnTypes : gmap string DataType) (err : error) :
  parseFlags E (init_cli args)
    = ((pretty, includeColumns, columnTypes, EmptyString, EmptyString), None) ->
  (run J A E ranges Stdin Stdout pretty
       (createOptions includeColumns columnTypes) (init_world args)).1 = None ->
  File_Close E Stdout = Some err ->
  (main J A E ranges args).1 = 0%Z /\
  ExitCode (app (main J A E ranges args).2) = 1%Z.
Proof.
  intros Hpf Hrun Hclose.
  change (main J A E ranges args) with (cli_run J A E ranges (init_world args)).
  pose proof (run_app J A E ranges Stdin Stdout pretty
                (createOptions includeColumns columnTypes) (init_world args)) as Happ.
  unfold cli_run, with_defer, bind, getApp. cbn [app init_world].
  rewrite Hpf. cbn [openInput openOutput String.eqb negb ret].
  cbn [app init_cli Input Output].
  fold (init_cli args). fold (init_world args).
  change (Input (app (init_world args))) with Stdin.
  change (Output (app (init_world args))) with Stdout.
  destruct (run J A E ranges Stdin Stdout pretty
              (createOptions includeColumns columnTypes) (init_world args))
    as [[e |] w'] eqn:Hr; simpl in Hrun; [discriminate |].
  cbn [snd] in Happ. cbn [ret].
  assert (Hout : File_Close E (Output (app w')) = Some err).
  { rewrite Happ. exact Hclose. }
  pose proof (close_output_fails E w' err Hout) as H1.
  destruct (close_output E w') as [[] w2]. cbn [ret snd] in *.
  pose proof (close_input_keeps_1 E w2 H1) as H2.
  destruct (close_input E w2) as [[] w3]. cbn [ret fst snd] in *.
  split; [rewrite Happ; reflexivity | exact H2].
Qed.

Lemma C7_output_close_failure_exits_0_witness :
  parseFlags (example_Env (Some close_error)) (init_cli [])
    = ((false, [], ∅, EmptyString, EmptyString), None) /\
  (run example_Json example_Arrow (example_Env (Some close_error))
       (fun _ => iter_fwd) Stdin Stdout false (createOptions [] ∅)
       (init_world [])).1 = None /\
  File_Close (example_Env (Some close_error)) Stdout = Some close_error /\
  (main example_Json example_Arrow (example_Env (Some close_error))
        (fun _ => iter_fwd) []).1 = 0%Z /\
  ExitCode (app (main example_Json example_Arrow (example_Env (Some close_error))
                   (fun _ => iter_fwd) []).2) = 1%Z.
Proof.
  split; [reflexivity |]. split; [reflexivity |]. split; [reflexivity |].
  exact (C7_output_close_failure_exits_0 example_Json example_Arrow
           (example_Env (Some close_error))
           (fun _ => iter_fwd) [] false [] ∅ close_error
           eq_refl eq_refl eq_refl).
Defined.

(** ** The library models: byte order, decimal digits, rounding *)

(** [string_lt] is the lexicographic order on the bytes. *)
Lemma string_lt_nil_cons b t : string_lt EmptyString (String b t).
Proof. reflexivity. Qed.

Lemma string_lt_nil_r s : ~ string_lt s EmptyString.
Proof. unfold string_lt, String.ltb. destruct s; simpl; discriminate. Qed.

Lemma string_lt_cons a s b t :
  string_lt (String a s) (String b t) <->
  (N_of_ascii a < N_of_ascii b)%N \/ (a = b /\ string_lt s t).
Proof.
  unfold string_lt, String.ltb. simpl.
  destruct (Ascii.compare a b) eqn:Hc.
  - apply Ascii.compare_eq_iff in Hc. subst b. split.
    + intros H. right. split; [reflexivity | exact H].
    + intros [H | [_ H]]; [lia | exact H].
  - unfold Ascii.compare in Hc. apply N.compare_lt_iff in Hc. split; auto.
  - unfold Ascii.compare in Hc. apply N.compare_gt_iff in Hc. split.
    + discriminate.
    + intros [H | [-> _]]; lia.
Qed.

Lemma digit_value_digit_char d :
  (0 <= d < 10)%Z -> digit_value (digit_char d) = d.
Proof.
  intros H.
  assert (Hd : (d = 0 \/ d = 1 \/ d = 2 \/ d = 3 \/ d = 4 \/ d = 5 \/ d = 6
               \/ d = 7 \/ d = 8 \/ d = 9)%Z) by lia.
  repeat (destruct Hd as [-> | Hd]; [reflexivity |]). now subst.
Qed.

Lemma value_from_app v a b :
  value_from v (a ++ b) = value_from (value_from v a) b.
Proof.
  revert v. induction a as [| c a IH]; intros v; [reflexivity |].
  change (value_from (10 * v + digit_value c) (a ++ b)
          = value_from (value_from (10 * v + digit_value c) a) b).
  apply IH.
Qed.

(** With enough fuel, [dec_digits] puts the decimal digits of [n] in
    front of [acc]. *)
Lemma dec_digits_spec fuel :
  forall n acc, (0 <= n < 2 ^ Z.of_nat fuel)%Z ->
  exists d p, dec_digits fuel n acc = d ++ acc /\
              forall v, value_from v d = (v * p + n)%Z.
Proof.
  induction fuel as [| k IH]; intros n acc Hn.
  - exists EmptyString, 1%Z. split; [reflexivity |].
    intros v. simpl in *. lia.
  - simpl dec_digits. destruct (Z.ltb_spec n 10) as [Hlt | Hge].
    + exists (String (digit_char (n mod 10)) EmptyString), 10%Z.
      split; [reflexivity |]. intros v. simpl.
      rewrite digit_value_digit_char by (apply Z.mod_pos_bound; lia).
      rewrite Z.mod_small by lia. lia.
    + assert (Hdiv : (0 <= n / 10 < 2 ^ Z.of_nat k)%Z).
      { rewrite Nat2Z.inj_succ, Z.pow_succ_r in Hn by lia.
        split; [apply Z.div_pos; lia |].
        apply Z.div_lt_upper_bound; lia. }
      destruct (IH (n / 10)%Z (String (digit_char (n mod 10)) acc) Hdiv)
        as [d [p [Hd Hv]]].
      exists (d ++ String (digit_char (n mod 10)) EmptyString), (p * 10)%Z.
      split.
      * rewrite Hd. now rewrite string_app_assoc.
      * intros v. rewrite value_from_app, Hv. simpl.
        rewrite digit_value_digit_char by (apply Z.mod_pos_bound; lia).
        pose proof (Z.div_mod n 10). lia.
Qed.

Lemma itoa_value n : (0 <= n)%Z -> digits_value (itoa n) = n.
Proof.
  intros Hn. unfold itoa, digits_value.
  assert (Hb : (0 <= n < 2 ^ Z.of_nat (S (Z.to_nat (Z.log2 n))))%Z).
  { split; [exact Hn |].
    rewrite Nat2Z.inj_succ, Z2Nat.id by apply Z.log2_nonneg.
    destruct (Z.eq_dec n 0%Z) as [-> | Hne]; [reflexivity |].
    apply Z.log2_spec. lia. }
  destruct (dec_digits_spec _ n EmptyString Hb) as [d [p [Hd Hv]]].
  rewrite Hd, string_app_nil_r, Hv. lia.
Qed.

Lemma frac6_value r : (0 <= r < 1000000)%Z -> digits_value (frac6 r) = r.
Proof.
  intros Hr. unfold digits_value, frac6. simpl.
  rewrite !digit_value_digit_char by (apply Z.mod_pos_bound; lia).
  Z.div_mod_to_equations. lia.
Qed.

(** [round_half_even] gives a nearest integer, the even one at a tie. *)
Lemma round_half_even_nearest num den :
  (0 < den)%Z ->
  (2 * Z.abs (round_half_even num den * den - num) <= den)%Z /\
  ((2 * (num mod den) = den)%Z -> Z.even (round_half_even num den) = true).
Proof.
  intros Hden. unfold round_half_even.
  pose proof (Z.div_mod num den) as Hdm.
  pose proof (Z.mod_pos_bound num den Hden) as Hr.
  destruct (Z.ltb_spec (2 * (num mod den)) den) as [H1 | H1].
  - split; [nia | lia].
  - destruct (Z.ltb_spec den (2 * (num mod den))) as [H2 | H2].
    + split; [nia | lia].
    + destruct (Z.even (num / den)) eqn:He.
      * split; [nia | intros _; exact He].
      * split; [nia |]. intros _.
        rewrite Z.even_add, He. reflexivity.
Qed.

(** The text of a finite float64: the digits before the point and the
    six after it denote the magnitude in millionths, rounded to the
    nearest integer. *)
Lemma Sprintf_f_value (s : bool) (m : positive) (e : Z) :
  let u := micros m e in
  Sprintf_f (S754_finite s m e) = fixed6 s u /\
  (0 <= u)%Z /\
  digits_value (itoa (u / 1000000)) = (u / 1000000)%Z /\
  digits_value (frac6 (u mod 1000000)) = (u mod 1000000)%Z /\
  ((0 <= e)%Z -> u = (Z.pos m * 2 ^ e * 1000000)%Z) /\
  ((e < 0)%Z ->
   (2 * Z.abs (u * 2 ^ (- e) - Z.pos m * 1000000) <= 2 ^ (- e))%Z).
Proof.
  intros u.
  assert (Hu : (0 <= u)%Z).
  { unfold u, micros. destruct (Z.leb_spec 0 e) as [He | He].
    - assert (0 < 2 ^ e)%Z by (apply Z.pow_pos_nonneg; lia). nia.
    - assert (Hp : (0 < 2 ^ (- e))%Z) by (apply Z.pow_pos_nonneg; lia).
      unfold round_half_even.
      assert (0 <= Z.pos m * 1000000 / 2 ^ (- e))%Z by (apply Z.div_pos; lia).
      repeat match goal with |- context [if ?b then _ else _] => destruct b end; lia. }
  split; [reflexivity |]. split; [exact Hu |]. split.
  { apply itoa_value. apply Z.div_pos; lia. }
  split.
  { apply frac6_value. apply Z.mod_pos_bound. lia. }
  split.
  - intros He. unfold u, micros. destruct (Z.leb_spec 0 e); [reflexivity | lia].
  - intros He. unfold u, micros. destruct (Z.leb_spec 0 e); [lia |].
    apply round_half_even_nearest. apply Z.pow_pos_nonneg; lia.
Qed.

(** ** Further checks on concrete inputs *)

(** The encoder's newline is the white space that val2str trims. *)
Example val2str_nil : val2str example_Json VNil = ("null", None).
Proof. reflexivity. Qed.

(** An integer literal is decoded as a float64 and printed with six
    zeros. *)
Example val2str_200 :
  val2str example_Json (VFloat64 (S754_finite false 200 0)) = ("200.000000", None).
Proof. reflexivity. Qed.

(** A tie is rounded to the even neighbour: 2^-7 = 0.0078125. *)
Example val2str_tie :
  val2str example_Json (VFloat64 (S754_finite true 1 (-7))) = ("-0.007812", None).
Proof. reflexivity. Qed.

(** A parse error of the flag set ends the run with exit code 1 and the
    error on the output, before anything else is done. *)
Lemma main_flag_error (J : Json) (A : Arrow) (E : Env) (ranges : nat -> MapIter)
    (args : list string) (fv : FlagValues) (err : error) :
  flag_Parse E args = (fv, Some err) ->
  main J A E ranges args =
    (1%Z, {| app := init_cli args;
             trace := [EvWrite Stdout (Error err ++ nl)] |}).
Proof.
  intros Hparse.
  change (main J A E ranges args) with (cli_run J A E ranges (init_world args)).
  unfold cli_run, bind, getApp, init_world. cbn [app].
  unfold parseFlags. cbn [Args init_cli]. rewrite Hparse. reflexivity.
Qed.

(** A failing pipeline ends the run with exit code 1, on the default
    input and output, whatever the closes do. *)
Lemma main_pipeline_error (J : Json) (A : Arrow) (E : Env) (ranges : nat -> MapIter)
    (args : list string) (pretty : bool) (includeColumns : list string)
    (columnTypes : gmap string DataType) (err : error) :
  parseFlags E (init_cli args)
    = ((pretty, includeColumns, columnTypes, EmptyString, EmptyString), None) ->
  (run J A E ranges Stdin Stdout pretty
       (createOptions includeColumns columnTypes) (init_world args)).1 = Some err ->
  (main J A E ranges args).1 = 1%Z.
Proof.
  intros Hpf Hrun.
  change (main J A E ranges args) with (cli_run J A E ranges (init_world args)).
  unfold cli_run, with_defer, bind, getApp. cbn [app init_world].
  rewrite Hpf. cbn [openInput openOutput String.eqb negb ret].
  cbn [app init_cli Input Output].
  fold (init_cli args). fold (init_world args).
  change (Input (app (init_world args))) with Stdin.
  change (Output (app (init_world args))) with Stdout.
  destruct (run J A E ranges Stdin Stdout pretty
              (createOptions includeColumns columnTypes) (init_world args))
    as [[e |] w'] eqn:Hr; simpl in Hrun; [| discriminate].
  cbn [ret]. unfold Fprint_, emit. cbn [ret].
  destruct (close_output E _) as [[] w2]. cbn [ret].
  destruct (close_input E w2) as [[] w3]. reflexivity.
Qed.

(** * Further properties of the code *)

(** ** The row of values, for any object *)

Lemma values_loop_ok J (j : JsonMapObject) keys acc :
  Forall (fun k => exists v, j !! k = Some v /\ stringifies J v) keys ->
  exists vals,
    values_loop J j keys acc = ((acc ++ vals)%list, None) /\
    Forall2 (aligned J j) keys vals.
Proof.
  intros H. revert acc.
  induction H as [| k keys [v [Hk Hv]] _ IH]; intros acc.
  - exists []. simpl. rewrite app_nil_r. split; [reflexivity | constructor].
  - simpl. rewrite Hk. unfold stringifies in Hv.
    destruct (val2str J v) as [s oe] eqn:Hs. simpl in Hv. subst oe.
    destruct (IH (acc ++ [s])%list) as [vals [Hloop Hall]].
    exists (s :: vals). split.
    + rewrite Hloop. now rewrite <- app_assoc.
    + constructor; [| exact Hall]. exists v. split; assumption.
Qed.

(** An error of the loop is the error of the first key, in the order of
    the list, whose value has no text; the slice returned with it is
    nil. *)
Lemma values_loop_first_error J (j : JsonMapObject) keys acc e :
  Forall (fun k => is_Some (j !! k)) keys ->
  (values_loop J j keys acc).2 = Some e ->
  (values_loop J j keys acc).1 = [] /\
  exists pre k post v,
    keys = (pre ++ k :: post)%list /\
    j !! k = Some v /\ (val2str J v).2 = Some e /\
    Forall (fun k' => exists v', j !! k' = Some v' /\ stringifies J v') pre.
Proof.
  intros H. revert acc.
  induction H as [| k keys [v Hk] _ IH]; intros acc He; [discriminate |].
  simpl in *. rewrite Hk in *.
  destruct (val2str J v) as [s [e' |]] eqn:Hs.
  - simpl in He. injection He as ->. split; [reflexivity |].
    exists [], k, keys, v. repeat split; auto. now rewrite Hs.
  - destruct (IH _ He) as [Hnil [pre [k0 [post [v0 [-> [Hk0 [Hv0 Hpre]]]]]]]].
    split; [exact Hnil |].
    exists (k :: pre), k0, post, v0. repeat split; auto.
    constructor; [| exact Hpre]. exists v. split; [exact Hk |].
    unfold stringifies. now rewrite Hs.
Qed.

Lemma sorted_keys_present (it : MapIter) (j : JsonMapObject) :
  Forall (fun k => is_Some (j !! k)) (sorted_keys it j).
Proof. apply Forall_forall. intros k Hk. now apply sorted_keys_elem in Hk. Qed.

(** X1: the row of an object, whatever its values: MapToValueStrsSorted
    succeeds exactly when every value of the object has a text, and then
    the row is aligned with the sorted keys, entry by entry. *)
Theorem X1_row_succeeds_iff (it : MapIter) (J : Json) (j : JsonMapObject) :
  ((MapToValueStrsSorted it J j).2 = None
     <-> map_Forall (fun _ v => stringifies J v) j) /\
  ((MapToValueStrsSorted it J j).2 = None ->
   Forall2 (aligned J j) (sorted_keys it j) (MapToValueStrsSorted it J j).1).
Proof.
  unfold MapToValueStrsSorted. rewrite MapToHeaderStrsSorted_ok.
  assert (Hfwd : map_Forall (fun _ v => stringifies J v) j ->
    exists vals, values_loop J j (sorted_keys it j) [] = (vals, None) /\
                 Forall2 (aligned J j) (sorted_keys it j) vals).
  { intros Hall.
    destruct (values_loop_ok J j (sorted_keys it j) []) as [vals [Hl Ha]].
    - apply Forall_forall. intros k Hk.
      apply sorted_keys_elem in Hk as [v Hv]. exists v. split; [exact Hv |].
      exact (Hall k v Hv).
    - exists vals. split; assumption. }
  assert (Hbwd : (values_loop J j (sorted_keys it j) []).2 = None ->
    map_Forall (fun _ v => stringifies J v) j).
  { intros Hnone k v Hkv.
    destruct (val2str J v) as [s [e |]] eqn:Hs; [| unfold stringifies; now rewrite Hs].
    exfalso.
    assert (Hin : k ∈ sorted_keys it j) by (apply sorted_keys_elem; eauto).
    apply list_elem_of_split in Hin as [pre [post Hsplit]].
    assert (Hgen : forall pre acc,
      (values_loop J j (pre ++ k :: post) acc).2 = None -> False).
    { clear -Hkv Hs. induction pre as [| k' pre IH]; intros acc; simpl.
      - rewrite Hkv, Hs. discriminate.
      - destruct (j !! k') as [v' |]; [| discriminate].
        destruct (val2str J v') as [s' [e' |]]; [discriminate | apply IH]. }
    apply (Hgen pre []). now rewrite <- Hsplit. }
  split; [split |].
  - exact Hbwd.
  - intros Hall. destruct (Hfwd Hall) as [vals [Hl _]]. now rewrite Hl.
  - intros Hnone. destruct (Hfwd (Hbwd Hnone)) as [vals [Hl Ha]]. now rewrite Hl.
Qed.

(** X2: when MapToValueStrsSorted fails, it returns no row, and its
    error is the error of the value stored under the least key, in byte
    order, whose value has no text. *)
Theorem X2_row_error_least_key
    (it : MapIter) (J : Json) (j : JsonMapObject) (e : error) :
  (MapToValueStrsSorted it J j).2 = Some e ->
  (MapToValueStrsSorted it J j).1 = [] /\
  exists k v,
    j !! k = Some v /\ (val2str J v).2 = Some e /\
    forall k' v', j !! k' = Some v' -> string_lt k' k -> stringifies J v'.
Proof.
  unfold MapToValueStrsSorted. rewrite MapToHeaderStrsSorted_ok. intros He.
  destruct (values_loop_first_error J j _ [] e (sorted_keys_present it j) He)
    as [Hnil [pre [k [post [v [Hkeys [Hk [Hv Hpre]]]]]]]].
  split; [exact Hnil |].
  exists k, v. repeat split; auto.
  intros k' v' Hk' Hlt.
  assert (Hin : k' ∈ sorted_keys it j) by (apply sorted_keys_elem; eauto).
  pose proof (sorted_keys_lt it j) as Hsorted.
  rewrite Hkeys in Hin, Hsorted.
  apply elem_of_app in Hin as [Hin | Hin].
  - rewrite Forall_forall in Hpre. destruct (Hpre k' Hin) as [v'' [Hk'' Hs]].
    congruence.
  - exfalso. apply StronglySorted_app_1_r in Hsorted.
    apply StronglySorted_cons in Hsorted as [Hall _].
    apply string_lt_le_neq in Hlt as [Hle Hne].
    apply elem_of_cons in Hin as [-> | Hin]; [congruence |].
    rewrite Forall_forall in Hall. specialize (Hall k' Hin).
    apply string_lt_le_neq in Hall as [Hle' _].
    apply Hne. now apply (anti_symm string_le).
Qed.

Lemma X2_row_error_least_key_witness :
  (MapToValueStrsSorted iter_rev example_Json refused_object).2
    = Some (json_error "json: unsupported value") /\
  (MapToValueStrsSorted iter_rev example_Json refused_object).1 = [] /\
  exists k v,
    refused_object !! k = Some v /\
    (val2str example_Json v).2 = Some (json_error "json: unsupported value") /\
    forall k' v', refused_object !! k' = Some v' -> string_lt k' k ->
                  stringifies example_Json v'.
Proof.
  split; [reflexivity |].
  exact (X2_row_error_least_key iter_rev example_Json refused_object
           (json_error "json: unsupported value") eq_refl).
Defined.

(** ** The two CSV lines *)

Lemma ToMapToHeaderLine_sorted (it : MapIter) (f : MapToValueStrings)
    (j : JsonMapObject) :
  ToMapToHeaderLine
    {| toHeaderStrings := MapToHeaderStrsSorted it; toValueStrings := f |} j
  = (csv_line (sorted_keys it j), None).
Proof. reflexivity. Qed.

Lemma ToMapToRow1st_sorted (it : MapIter) (J : Json) (f : MapToHeaderStrings)
    (j : JsonMapObject) :
  ToMapToRow1st
    {| toHeaderStrings := f; toValueStrings := MapToValueStrsSorted it J |} j
  = match MapToValueStrsSorted it J j with
    | (_, Some e) => (EmptyString, Some e)
    | (vals, None) => (csv_line vals, None)
    end.
Proof.
  unfold ToMapToRow1st. simpl toValueStrings.
  destruct (MapToValueStrsSorted it J j) as [vals [e |]]; reflexivity.
Qed.

(** X3: the converter of the pipeline. A decoding error is returned with
    an empty fragment. Otherwise the header line is always the CSV line
    of the sorted keys, also when the row fails; the row is the CSV line
    of the values, or empty with the row's error as the only member of
    the joined error. *)
Theorem X3_converter_results (J : Json) (ranges : nat -> MapIter) (input : string) :
  match json_Unmarshal J input with
  | (_, Some msg) =>
      j2c J ranges input =
        ({| HeaderLine := EmptyString; Row1st := EmptyString |},
         Some (json_error msg))
  | (jmap, None) =>
      match MapToValueStrsSorted (ranges 3) J jmap with
      | (vals, None) =>
          j2c J ranges input =
            ({| HeaderLine := csv_line (sorted_keys (ranges 0) jmap);
                Row1st := csv_line vals |}, None)
      | (_, Some e) =>
          j2c J ranges input =
            ({| HeaderLine := csv_line (sorted_keys (ranges 0) jmap);
                Row1st := EmptyString |}, Some (Join [e]))
      end
  end.
Proof.
  unfold j2c, ToJsonToCsvRaw.
  destruct (json_Unmarshal J input) as [jmap [msg |]]; [reflexivity |].
  simpl toHeaderLine. simpl toRow1st.
  rewrite ToMapToHeaderLine_sorted, ToMapToRow1st_sorted.
  destruct (MapToValueStrsSorted (ranges 3) J jmap) as [vals [e |]]; reflexivity.
Qed.

Lemma sorted_keys_empty (it : MapIter) : sorted_keys it ∅ = [].
Proof.
  apply Permutation_nil_r. rewrite sorted_keys_perm.
  now rewrite map_to_list_empty.
Qed.

(** X4: the empty object. Its header line and its row are both a lone
    newline, with no error, so the fragment handed on is two empty
    lines. *)
Theorem X4_empty_object (it_h it_v : MapIter) (J : Json)
    (f : MapToValueStrings) (g : MapToHeaderStrings) :
  MapToHeaderStrsSorted it_h ∅ = ([], None) /\
  MapToValueStrsSorted it_v J ∅ = ([], None) /\
  ToMapToHeaderLine
    {| toHeaderStrings := MapToHeaderStrsSorted it_h; toValueStrings := f |} ∅
    = (nl, None) /\
  ToMapToRow1st
    {| toHeaderStrings := g; toValueStrings := MapToValueStrsSorted it_v J |} ∅
    = (nl, None).
Proof.
  assert (Hh : forall it, MapToHeaderStrsSorted it ∅ = ([], None)).
  { intros it. rewrite MapToHeaderStrsSorted_ok. now rewrite sorted_keys_empty. }
  assert (Hv : MapToValueStrsSorted it_v J ∅ = ([], None)).
  { unfold MapToValueStrsSorted. now rewrite Hh. }
  split; [apply Hh |]. split; [exact Hv |]. split.
  - rewrite ToMapToHeaderLine_sorted. now rewrite sorted_keys_empty.
  - rewrite ToMapToRow1st_sorted. now rewrite Hv.
Qed.

(** ** The effects of the pipeline *)

Section RunEffects.
Variable J : Json.
Variable A : Arrow.
Variable E : Env.
Variable ranges : nat -> MapIter.
Variables r writer : File.
Variable pretty : bool.
Variable opts : list Option_.

(** X5: what run does to the outside. It reads its input once and
    leaves the cli value alone. It writes at most once, and only after a
    schema was obtained: then it writes the pretty document, or the
    schema's text and a newline, and returns the result of that write.
    In every other case it returns an error and has written nothing. *)
Theorem X5_run_effects (w : world) :
  app (run J A E ranges r writer pretty opts w).2 = app w /\
  ((is_Some (run J A E ranges r writer pretty opts w).1 /\
    trace (run J A E ranges r writer pretty opts w).2
      = (trace w ++ [EvReadAll r])%list) \/
   (exists schema,
      (io_ReadAll E r).2 = None /\
      (j2c J ranges (io_ReadAll E r).1).2 = None /\
      ToSchema A (csv_fragment J ranges (io_ReadAll E r).1) opts
        = (Some schema, None) /\
      trace (run J A E ranges r writer pretty opts w).2
        = (trace w ++ [EvReadAll r;
                       EvWrite writer (output_text J A pretty schema)])%list /\
      (run J A E ranges r writer pretty opts w).1
        = File_Write E writer (output_text J A pretty schema))).
Proof.
  split; [apply run_app |].
  unfold csv_fragment.
  cbv beta iota zeta delta [run ReadAll Write emit ret bind].
  destruct (io_ReadAll E r) as [jsonBytes [err |]]; cbn [fst snd app trace].
  { left. split; [eauto | reflexivity]. }
  destruct (j2c J ranges jsonBytes) as [csvData [err |]]; cbn [fst snd app trace].
  { left. split; [eauto | reflexivity]. }
  change (EmptyString ++ HeaderLine csvData) with (HeaderLine csvData).
  destruct (ToSchema A (HeaderLine csvData ++ Row1st csvData) opts)
    as [[schema |] [err |]] eqn:Hs.
  - left. split; [eauto | reflexivity].
  - right. exists schema. repeat split.
    + unfold output_text. destruct pretty.
      * rewrite json_MarshalIndent_pretty, toSerializableSchema_fields.
        cbn [app trace snd]. now rewrite <- app_assoc.
      * cbn [app trace snd]. now rewrite <- app_assoc.
    + unfold output_text. destruct pretty.
      * rewrite json_MarshalIndent_pretty, toSerializableSchema_fields. reflexivity.
      * reflexivity.
  - left. split; [eauto | reflexivity].
  - left. split; [eauto | reflexivity].
Qed.
End RunEffects.

(** ** The -types argument *)

Lemma last_type_head (p : string) (rest : list string) :
  is_Some (last_type (p :: rest) (pair_name p)).
Proof.
  simpl. destruct (last_type rest (pair_name p)); [eauto |].
  rewrite String.eqb_refl. eauto.
Qed.

Lemma parseFlags_loop_step (p : string) (rest : list string)
    (ct : gmap string DataType) :
  parseFlags_loop (p :: rest) ct =
    if malformed p then (∅, Some (Errorf_w ErrInvalidTypeMapping p))
    else parseFlags_loop rest (<[pair_name p := typeFromString (pair_type p)]> ct).
Proof. reflexivity. Qed.

Lemma parseFlags_loop_error (pairs : list string) (tok : string) :
  find malformed pairs = Some tok ->
  forall ct, parseFlags_loop pairs ct
             = (∅, Some (Errorf_w ErrInvalidTypeMapping tok)).
Proof.
  induction pairs as [| p rest IH]; intros Hfind ct; [discriminate |].
  rewrite parseFlags_loop_step. simpl in Hfind.
  destruct (malformed p); [now injection Hfind as -> | now apply IH].
Qed.

Lemma parseFlags_loop_lookup (pairs : list string) :
  find malformed pairs = None ->
  forall ct,
    (parseFlags_loop pairs ct).2 = None /\
    forall k,
      (parseFlags_loop pairs ct).1 !! k =
        match last_type pairs k with
        | Some t => Some t
        | None => ct !! k
        end.
Proof.
  induction pairs as [| p rest IH]; intros Hfind ct.
  - split; reflexivity.
  - rewrite parseFlags_loop_step. simpl in Hfind.
    destruct (malformed p); [discriminate |].
    destruct (IH Hfind (<[pair_name p := typeFromString (pair_type p)]> ct))
      as [Hnone Hlook].
    split; [exact Hnone |].
    intros k. rewrite Hlook. simpl last_type.
    destruct (last_type rest k); [reflexivity |].
    destruct (String.eqb_spec (pair_name p) k) as [-> | Hne].
    + now rewrite lookup_insert_eq.
    + now rewrite lookup_insert_ne.
Qed.

(** X6: the loop of parseFlags over the pairs. If a token is malformed,
    the error names the first such token and no map is returned, whatever
    the pairs before it were. Otherwise the loop succeeds, and every
    column is mapped to the type of the last pair that names it; a column
    that no pair names keeps its entry. *)
Theorem X6_parseFlags_loop_outcome
    (pairs : list string) (columnTypes : gmap string DataType) :
  match find malformed pairs with
  | Some tok =>
      parseFlags_loop pairs columnTypes
        = (∅, Some (Errorf_w ErrInvalidTypeMapping tok))
  | None =>
      (parseFlags_loop pairs columnTypes).2 = None /\
      forall k,
        (parseFlags_loop pairs columnTypes).1 !! k =
          match last_type pairs k with
          | Some t => Some t
          | None => columnTypes !! k
          end
  end.
Proof.
  destruct (find malformed pairs) as [tok |] eqn:Hfind.
  - now apply parseFlags_loop_error.
  - now apply parseFlags_loop_lookup.
Qed.

Lemma split_from_nonempty sep s cur : split_from sep s cur <> [].
Proof.
  revert cur. induction s as [| c s IH]; intros cur; simpl; [discriminate |].
  destruct (Ascii.eqb c sep); [discriminate | apply IH].
Qed.

Lemma has_byte_app c a b : has_byte c (a ++ b) = has_byte c a || has_byte c b.
Proof.
  induction a as [| x a IH]; [reflexivity |].
  change (has_byte c (String x (a ++ b)) = has_byte c (String x a) || has_byte c b).
  simpl. rewrite IH. now rewrite orb_assoc.
Qed.

Lemma split_from_join sep s : forall cur,
  has_byte sep cur = false ->
  string_join (String sep EmptyString) (split_from sep s cur) = cur ++ s /\
  Forall (fun p => has_byte sep p = false) (split_from sep s cur).
Proof.
  induction s as [| c s IH]; intros cur Hcur.
  - simpl. rewrite string_app_nil_r. split; [reflexivity |].
    constructor; [exact Hcur | constructor].
  - simpl split_from. destruct (Ascii.eqb c sep) eqn:Hc.
    + apply Ascii.eqb_eq in Hc. subst c.
      destruct (IH EmptyString eq_refl) as [Hj Hf].
      split; [| constructor; assumption].
      pose proof (split_from_nonempty sep s EmptyString) as Hne.
      destruct (split_from sep s EmptyString) as [| x l] eqn:Hs; [contradiction |].
      change (cur ++ String sep EmptyString
                ++ string_join (String sep EmptyString) (x :: l) = cur ++ String sep s).
      now rewrite Hj.
    + assert (Hcur' : has_byte sep (cur ++ String c EmptyString) = false).
      { rewrite has_byte_app, Hcur. simpl. now rewrite Hc. }
      destruct (IH _ Hcur') as [Hj Hf]. split; [| exact Hf].
      rewrite Hj. now rewrite string_app_assoc.
Qed.

(** X7: strings.Split by one byte. The pieces are never none, no piece
    holds the separator, and joining them with the separator gives the
    string back: the tokens of an argument are all of it, cut at every
    comma or colon. *)
Theorem X7_strings_Split_join (s : string) (sep : ascii) :
  strings_Split s sep <> [] /\
  Forall (fun p => has_byte sep p = false) (strings_Split s sep) /\
  string_join (String sep EmptyString) (strings_Split s sep) = s.
Proof.
  unfold strings_Split. split; [apply split_from_nonempty |].
  destruct (split_from_join sep s EmptyString eq_refl) as [Hj Hf].
  split; assumption.
Qed.

Lemma parseFlags_loop_nonempty (pairs : list string) (ct : gmap string DataType) :
  pairs <> [] ->
  (parseFlags_loop pairs ct).2 = None ->
  Nat.ltb 0 (size (parseFlags_loop pairs ct).1) = true.
Proof.
  intros Hne Hok.
  destruct (find malformed pairs) as [tok |] eqn:Hfind.
  { rewrite (parseFlags_loop_error pairs tok Hfind) in Hok. discriminate. }
  destruct (parseFlags_loop_lookup pairs Hfind ct) as [_ Hlook].
  destruct pairs as [| p rest]; [contradiction |].
  specialize (Hlook (pair_name p)).
  destruct (last_type_head p rest) as [t Ht]. rewrite Ht in Hlook.
  apply Nat.ltb_lt.
  destruct (size (parseFlags_loop (p :: rest) ct).1) eqn:Hsize; [| lia].
  apply map_size_empty_iff in Hsize. rewrite Hsize, lookup_empty in Hlook.
  discriminate.
Qed.

(** X8: from the flags to the options of the reader. When parseFlags
    succeeds, the paths and the pretty flag are those of the flag set,
    the include list is the -include argument cut at commas (none for
    an empty argument), and createOptions passes an include option
    exactly when -include is not empty and a types option exactly when
    -types is not empty, in this order. *)
Theorem X8_flags_to_options
    (E : Env) (args : list string) (fv : FlagValues)
    (pretty : bool) (includeColumns : list string)
    (columnTypes : gmap string DataType) (inputFile outputFile : string) :
  flag_Parse E args = (fv, None) ->
  parseFlags E (init_cli args)
    = ((pretty, includeColumns, columnTypes, inputFile, outputFile), None) ->
  pretty = fv_pretty fv /\
  inputFile = fv_inputFile fv /\
  outputFile = fv_outputFile fv /\
  includeColumns =
    (if String.eqb (fv_include fv) EmptyString then []
     else strings_Split (fv_include fv) ",") /\
  createOptions includeColumns columnTypes =
    ((if String.eqb (fv_include fv) EmptyString then []
      else [WithIncludeColumns includeColumns])
     ++ (if String.eqb (fv_types fv) EmptyString then []
         else [WithColumnTypes columnTypes]))%list.
Proof.
  intros Hparse Hpf. unfold parseFlags in Hpf. cbn [Args init_cli] in Hpf.
  rewrite Hparse in Hpf.
  assert (Hinc : Nat.ltb 0 (length (if negb (String.eqb (fv_include fv) EmptyString)
                                    then strings_Split (fv_include fv) "," else []))
                 = negb (String.eqb (fv_include fv) EmptyString)).
  { destruct (String.eqb (fv_include fv) EmptyString); [reflexivity |].
    simpl negb. cbv iota.
    pose proof (split_from_nonempty "," (fv_include fv) EmptyString) as Hne.
    unfold strings_Split.
    destruct (split_from "," (fv_include fv) EmptyString); [contradiction | reflexivity]. }
  destruct (String.eqb (fv_types fv) EmptyString) eqn:Ht; simpl negb in Hpf; cbv iota in Hpf.
  - injection Hpf as <- <- <- <- <-.
    unfold createOptions. rewrite Hinc.
    destruct (String.eqb (fv_include fv) EmptyString); repeat split; reflexivity.
  - pose proof (parseFlags_loop_nonempty (strings_Split (fv_types fv) ",") ∅
                  (split_from_nonempty "," (fv_types fv) EmptyString)) as Hsize.
    destruct (parseFlags_loop (strings_Split (fv_types fv) ",") ∅)
      as [ct [err |]]; [discriminate |].
    injection Hpf as <- <- <- <- <-.
    specialize (Hsize eq_refl). cbn [fst] in Hsize.
    unfold createOptions. rewrite Hinc, Hsize.
    destruct (String.eqb (fv_include fv) EmptyString); repeat split; reflexivity.
Qed.

Lemma X8_flags_to_options_witness :
  createOptions [] {[ "a" := BooleanType ]}
    = [WithColumnTypes {[ "a" := BooleanType ]}].
Proof.
  exact (proj2 (proj2 (proj2 (proj2
    (X8_flags_to_options (example_Env None) ["-types"; "a:bool"]
       {| fv_inputFile := EmptyString; fv_outputFile := EmptyString;
          fv_pretty := false; fv_include := EmptyString; fv_types := "a:bool" |}
       false [] {[ "a" := BooleanType ]} EmptyString EmptyString
       eq_refl eq_refl))))).
Defined.

(** ** The command: exit code and handles *)

Section CliEffects.
Variable J : Json.
Variable A : Arrow.
Variable E : Env.
Variable ranges : nat -> MapIter.

Lemma run_result_indep (r writer : File) (pretty : bool) (opts : list Option_)
    (w w' : world) :
  (run J A E ranges r writer pretty opts w).1
  = (run J A E ranges r writer pretty opts w').1.
Proof.
  cbv beta iota zeta delta [run ReadAll Write emit ret bind].
  destruct (io_ReadAll E r) as [jsonBytes [err |]]; [reflexivity |].
  destruct (j2c J ranges jsonBytes) as [csvData [err |]]; [reflexivity |].
  destruct (ToSchema A _ opts) as [[schema |] [err |]]; try reflexivity.
  destruct pretty; reflexivity.
Qed.

Lemma run_trace_cases (r writer : File) (pretty : bool) (opts : list Option_)
    (w : world) :
  trace (run J A E ranges r writer pretty opts w).2 = (trace w ++ [EvReadAll r])%list \/
  exists out,
    trace (run J A E ranges r writer pretty opts w).2
      = (trace w ++ [EvReadAll r; EvWrite writer out])%list.
Proof.
  cbv beta iota zeta delta [run ReadAll Write emit ret bind].
  destruct (io_ReadAll E r) as [jsonBytes [err |]]; [now left |].
  destruct (j2c J ranges jsonBytes) as [csvData [err |]]; [now left |].
  destruct (ToSchema A _ opts) as [[schema |] [err |]]; try (now left).
  right. destruct pretty.
  - rewrite json_MarshalIndent_pretty. eexists. cbn [snd trace app].
    rewrite <- app_assoc. reflexivity.
  - eexists. cbn [snd trace app]. rewrite <- app_assoc. reflexivity.
Qed.

Lemma openInput_eq (inputFile : string) (w : world) :
  openInput E inputFile w =
    if String.eqb inputFile EmptyString then (None, w)
    else match os_Open E inputFile with
         | Some err =>
             (Some err, {| app := app w;
                           trace := (trace w ++ [EvOpen inputFile])%list |})
         | None =>
             (None, {| app := with_Input (app w) (OsFile inputFile);
                       trace := (trace w ++ [EvOpen inputFile])%list |})
         end.
Proof.
  cbv beta iota zeta delta [openInput bind emit setInput setApp getApp ret].
  destruct (String.eqb inputFile EmptyString); [reflexivity |].
  simpl negb. cbv iota. destruct (os_Open E inputFile); reflexivity.
Qed.

Lemma openOutput_eq (outputFile : string) (w : world) :
  openOutput E outputFile w =
    if String.eqb outputFile EmptyString then (None, w)
    else match os_Create E outputFile with
         | Some err =>
             (Some err, {| app := app w;
                           trace := (trace w ++ [EvCreate outputFile])%list |})
         | None =>
             (None, {| app := with_Output (app w) (OsFile outputFile);
                       trace := (trace w ++ [EvCreate outputFile])%list |})
         end.
Proof.
  cbv beta iota zeta delta [openOutput bind emit setOutput setApp getApp ret].
  destruct (String.eqb outputFile EmptyString); [reflexivity |].
  simpl negb. cbv iota. destruct (os_Create E outputFile); reflexivity.
Qed.

Lemma close_output_eq (w : world) :
  close_output E w =
    (tt, match File_Close E (Output (app w)) with
         | Some err =>
             {| app := with_ExitCode (app w) 1;
                trace := (trace w ++
                  [EvClose (Output (app w));
                   EvWrite (Output (app w))
                     ("Error closing output file: " ++ Error err ++ nl)])%list |}
         | None =>
             {| app := app w;
                trace := (trace w ++ [EvClose (Output (app w))])%list |}
         end).
Proof.
  cbv beta iota zeta delta
    [close_output bind emit setExitCode setApp getApp Fprint_ ret].
  cbn [app trace]. destruct (File_Close E (Output (app w))); cbn [app trace].
  - now rewrite <- app_assoc.
  - reflexivity.
Qed.

Lemma close_input_eq (w : world) :
  close_input E w =
    (tt, match File_Close E (Input (app w)) with
         | Some err =>
             {| app := with_ExitCode (app w) 1;
                trace := (trace w ++
                  [EvClose (Input (app w));
                   EvWrite (Output (app w))
                     ("Error closing input file: " ++ Error err ++ nl)])%list |}
         | None =>
             {| app := app w;
                trace := (trace w ++ [EvClose (Input (app w))])%list |}
         end).
Proof.
  cbv beta iota zeta delta
    [close_input bind emit setExitCode setApp getApp Fprint_ ret].
  cbn [app trace]. destruct (File_Close E (Input (app w))); cbn [app trace].
  - now rewrite <- app_assoc.
  - reflexivity.
Qed.

(** The run after the flags were parsed, step by step. *)
Lemma cli_run_eq (w : world) :
  cli_run J A E ranges w =
    match parseFlags E (app w) with
    | (_, Some err) =>
        (1%Z, {| app := app w;
                 trace := (trace w ++ [EvWrite (Output (app w)) (Error err ++ nl)])%list |})
    | ((pretty, includeColumns, columnTypes, inputFile, outputFile), None) =>
        let '(oi, w1) := openInput E inputFile w in
        match oi with
        | Some err =>
            (1%Z, {| app := app w1;
                     trace := (trace w1 ++
                       [EvWrite (Output (app w1))
                          ("Error opening input file: " ++ Error err ++ nl)])%list |})
        | None =>
            let '(code, w4) :=
              let '(oo, w2) := openOutput E outputFile w1 in
              match oo with
              | Some err =>
                  (1%Z, {| app := app w2;
                           trace := (trace w2 ++
                             [EvWrite (Output (app w2))
                                ("Error creating output file: "
                                   ++ Error err ++ nl)])%list |})
              | None =>
                  let '(code, w3) :=
                    let '(e, w3) :=
                      run J A E ranges (Input (app w2)) (Output (app w2)) pretty
                        (createOptions includeColumns columnTypes) w2 in
                    match e with
                    | Some err =>
                        (1%Z, {| app := app w3;
                                 trace := (trace w3 ++
                                   [EvWrite (Output (app w3))
                                      ("Error: " ++ Error err ++ nl)])%list |})
                    | None => (ExitCode (app w3), w3)
                    end in
                  (code, (close_output E w3).2)
              end in
            (code, (close_input E w4).2)
        end
    end.
Proof.
  cbv beta iota zeta delta [cli_run with_defer bind getApp ret Fprint_ emit].
  destruct (parseFlags E (app w))
    as [[[[[pretty includeColumns] columnTypes] inputFile] outputFile] [err |]];
    [reflexivity |].
  destruct (openInput E inputFile w) as [[err |] w1]; [reflexivity |].
  destruct (openOutput E outputFile w1) as [[err |] w2].
  - destruct (close_input E _) as [[] w4]. reflexivity.
  - destruct (run J A E ranges _ _ pretty _ w2) as [[err |] w3].
    + destruct (close_output E _) as [[] w4]. cbn [fst snd].
      destruct (close_input E w4) as [[] w5]. reflexivity.
    + destruct (close_output E w3) as [[] w4]. cbn [fst snd].
      destruct (close_input E w4) as [[] w5]. reflexivity.
Qed.

(** X9: the exit code of the command, in full. It is 1 when the flags
    do not parse, when a named input file does not open, when a named
    output file cannot be created, or when the pipeline fails, and 0
    otherwise; the results of closing the two handles have no part in
    it. *)
Theorem X9_exit_code (args : list string) :
  (main J A E ranges args).1 =
    match parseFlags E (init_cli args) with
    | (_, Some _) => 1%Z
    | ((pretty, includeColumns, columnTypes, inputFile, outputFile), None) =>
        if input_fails E inputFile || output_fails E outputFile then 1%Z
        else
          match (run J A E ranges (in_file inputFile) (out_file outputFile) pretty
                     (createOptions includeColumns columnTypes)
                     (init_world args)).1 with
          | Some _ => 1%Z
          | None => 0%Z
          end
    end.
Proof.
  change (main J A E ranges args) with (cli_run J A E ranges (init_world args)).
  rewrite cli_run_eq. cbn [app init_world].
  destruct (parseFlags E (init_cli args))
    as [[[[[pretty includeColumns] columnTypes] inputFile] outputFile] [err |]];
    [reflexivity |].
  remember (run J A E ranges (in_file inputFile) (out_file outputFile) pretty
              (createOptions includeColumns columnTypes) (init_world args)).1
    as res eqn:Heq.
  assert (Hres : forall w,
            (run J A E ranges (in_file inputFile) (out_file outputFile) pretty
                 (createOptions includeColumns columnTypes) w).1 = res)
    by (intros; subst res; apply run_result_indep).
  clear Heq. revert Hres.
  rewrite openInput_eq. unfold input_fails, output_fails, in_file, out_file.
  destruct (String.eqb inputFile EmptyString);
    [| destruct (os_Open E inputFile); [intros _; reflexivity |]];
    rewrite openOutput_eq;
    (destruct (String.eqb outputFile EmptyString);
       [| destruct (os_Create E outputFile); [intros _; reflexivity |]]);
    intros Hres; unfold init_world in *;
    cbn [app trace Input Output with_Input with_Output init_cli orb] in *;
    match goal with
    | |- context [run J A E ranges ?a ?b ?c ?d ?w] =>
        pose proof (run_app J A E ranges a b c d w) as Happ;
        pose proof (Hres w) as Hr;
        destruct (run J A E ranges a b c d w) as [[e |] w3] eqn:Hrun;
        rewrite ?Hrun in Hr, Happ
    end; cbn [fst snd app] in *; rewrite <- Hr; try reflexivity;
    rewrite Happ; reflexivity.
Qed.

(** The trace of a run that gets past both opens: the opens, one read,
    writes to the output, the close of the output, the close of the
    input. *)
Ltac cli_norm :=
  cbn [fst snd app trace Input Output Args ExitCode init_cli
       with_Input with_Output with_ExitCode].

Lemma main_ok_path (args : list string) (pretty : bool)
    (includeColumns : list string) (columnTypes : gmap string DataType)
    (inputFile outputFile : string) :
  parseFlags E (init_cli args)
    = ((pretty, includeColumns, columnTypes, inputFile, outputFile), None) ->
  input_fails E inputFile = false ->
  output_fails E outputFile = false ->
  exists ws,
    Forall (is_write_to (out_file outputFile)) ws /\
    trace (main J A E ranges args).2 =
      (open_events inputFile outputFile
       ++ EvReadAll (in_file inputFile) :: ws
       ++ close_events E (out_file outputFile) (out_file outputFile) "output"
       ++ close_events E (in_file inputFile) (out_file outputFile) "input")%list.
Proof.
  intros Hpf Hin Hout.
  change (main J A E ranges args) with (cli_run J A E ranges (init_world args)).
  rewrite cli_run_eq. cbn [app init_world]. rewrite Hpf.
  rewrite openInput_eq.
  unfold input_fails, output_fails, in_file, out_file, open_events, close_events in *.
  destruct (String.eqb inputFile EmptyString);
    [| destruct (os_Open E inputFile); [discriminate |]];
    rewrite openOutput_eq;
    (destruct (String.eqb outputFile EmptyString);
       [| destruct (os_Create E outputFile); [discriminate |]]);
    unfold init_world;
    cbn [app trace Input Output with_Input with_Output init_cli];
    match goal with
    | |- context [run J A E ranges ?a ?b ?c ?d ?w] =>
        pose proof (run_app J A E ranges a b c d w) as Happ;
        pose proof (run_trace_cases a b c d w) as Htr;
        destruct (run J A E ranges a b c d w) as [oe [c3 t3]] eqn:Hrun;
        rewrite ?Hrun in Htr, Happ
    end; cbn [fst snd app trace] in *; subst c3; cli_norm;
    ((destruct Htr as [-> | [out ->]]); destruct oe as [e |];
     [ refine (ex_intro _ [EvWrite _ ("Error: " ++ Error e ++ nl)] _)
     | refine (ex_intro _ [] _)
     | refine (ex_intro _ [EvWrite _ out;
                            EvWrite _ ("Error: " ++ Error e ++ nl)] _)
     | refine (ex_intro _ [EvWrite _ out] _) ]);
    cli_norm;
    rewrite close_output_eq; cli_norm;
    match goal with
    | |- context [File_Close E ?f] => destruct (File_Close E f)
    end; cli_norm;
    rewrite close_input_eq; cli_norm;
    match goal with
    | |- context [File_Close E ?f] => destruct (File_Close E f)
    end; cli_norm;
    (split; [| reflexivity]);
    repeat constructor; eexists; reflexivity.
Qed.

(** X10: when a named input file does not open, the run ends there: the
    exit code is 1, the message goes to the standard output, no output
    file is created, nothing is read and nothing is closed. *)
Theorem X10_input_open_failure (args : list string) (pretty : bool)
    (includeColumns : list string) (columnTypes : gmap string DataType)
    (inputFile outputFile : string) (err : error) :
  parseFlags E (init_cli args)
    = ((pretty, includeColumns, columnTypes, inputFile, outputFile), None) ->
  inputFile <> EmptyString ->
  os_Open E inputFile = Some err ->
  main J A E ranges args =
    (1%Z, {| app := init_cli args;
             trace := [EvOpen inputFile;
                       EvWrite Stdout
                         ("Error opening input file: " ++ Error err ++ nl)] |}).
Proof.
  intros Hpf Hne Hopen.
  change (main J A E ranges args) with (cli_run J A E ranges (init_world args)).
  rewrite cli_run_eq. cbn [app init_world]. rewrite Hpf, openInput_eq.
  apply String.eqb_neq in Hne. rewrite Hne, Hopen. reflexivity.
Qed.

(** X11: when the output file cannot be created, the exit code is 1,
    the message goes to the standard output, nothing is read, and the
    input that was opened before is closed all the same. *)
Theorem X11_output_create_failure (args : list string) (pretty : bool)
    (includeColumns : list string) (columnTypes : gmap string DataType)
    (inputFile outputFile : string) (err : error) :
  parseFlags E (init_cli args)
    = ((pretty, includeColumns, columnTypes, inputFile, outputFile), None) ->
  input_fails E inputFile = false ->
  outputFile <> EmptyString ->
  os_Create E outputFile = Some err ->
  (main J A E ranges args).1 = 1%Z /\
  trace (main J A E ranges args).2 =
    (open_events inputFile outputFile
     ++ [EvWrite Stdout ("Error creating output file: " ++ Error err ++ nl)]
     ++ close_events E (in_file inputFile) Stdout "input")%list.
Proof.
  intros Hpf Hin Hne Hcreate.
  change (main J A E ranges args) with (cli_run J A E ranges (init_world args)).
  rewrite cli_run_eq. cbn [app init_world]. rewrite Hpf, openInput_eq.
  apply String.eqb_neq in Hne.
  unfold input_fails, in_file, open_events, close_events in *. rewrite Hne.
  destruct (String.eqb inputFile EmptyString);
    [| destruct (os_Open E inputFile); [discriminate |]];
    rewrite openOutput_eq, Hne, Hcreate;
    cbn [app trace Input Output with_Input init_cli fst snd];
    rewrite close_input_eq;
    cbn [app trace Input Output with_Input init_cli fst snd];
    (destruct (File_Close E _); split; reflexivity).
Qed.

Lemma filter_is_close_writes (out : File) (ws : list event) :
  Forall (is_write_to out) ws -> List.filter is_close ws = [].
Proof.
  induction 1 as [| ev ws [s ->] _ IH]; [reflexivity | exact IH].
Qed.

(** X12: the handles that a run closes. Nothing is closed when the
    flags do not parse or the input does not open; the input alone when
    the output cannot be created; otherwise the output and then the
    input, once each, whether the pipeline succeeded or not. The
    standard input and output are closed like files. *)
Theorem X12_handles_closed (args : list string) :
  List.filter is_close (trace (main J A E ranges args).2) =
    match parseFlags E (init_cli args) with
    | (_, Some _) => []
    | ((_, _, _, inputFile, outputFile), None) =>
        if input_fails E inputFile then []
        else if output_fails E outputFile then [EvClose (in_file inputFile)]
        else [EvClose (out_file outputFile); EvClose (in_file inputFile)]
    end.
Proof.
  destruct (parseFlags E (init_cli args))
    as [[[[[pretty includeColumns] columnTypes] inputFile] outputFile] [err |]]
    eqn:Hpf.
  { change (main J A E ranges args) with (cli_run J A E ranges (init_world args)).
    rewrite cli_run_eq. cbn [app init_world]. rewrite Hpf. reflexivity. }
  destruct (input_fails E inputFile) eqn:Hin.
  { change (main J A E ranges args) with (cli_run J A E ranges (init_world args)).
    rewrite cli_run_eq. cbn [app init_world]. rewrite Hpf, openInput_eq.
    unfold input_fails in Hin.
    destruct (String.eqb inputFile EmptyString); [discriminate |].
    destruct (os_Open E inputFile); [reflexivity | discriminate]. }
  destruct (output_fails E outputFile) eqn:Hout.
  { change (main J A E ranges args) with (cli_run J A E ranges (init_world args)).
    rewrite cli_run_eq. cbn [app init_world]. rewrite Hpf, openInput_eq.
    unfold input_fails, output_fails, in_file in *.
    destruct (String.eqb inputFile EmptyString);
      [| destruct (os_Open E inputFile); [discriminate |]];
      rewrite openOutput_eq;
      (destruct (String.eqb outputFile EmptyString); [discriminate |]);
      (destruct (os_Create E outputFile); [| discriminate]);
      cbn [app trace Input Output with_Input init_cli fst snd];
      rewrite close_input_eq;
      cbn [app trace Input Output with_Input init_cli fst snd];
      (destruct (File_Close E _); reflexivity). }
  destruct (main_ok_path args pretty includeColumns columnTypes inputFile
              outputFile Hpf Hin Hout) as [ws [Hws ->]].
  rewrite !List.filter_app. cbn [List.filter is_close].
  rewrite !List.filter_app, (filter_is_close_writes _ ws Hws).
  unfold open_events, close_events.
  destruct (String.eqb inputFile EmptyString);
    destruct (String.eqb outputFile EmptyString);
    destruct (File_Close E (out_file outputFile));
    destruct (File_Close E (in_file inputFile)); reflexivity.
Qed.

(** X13: where the messages go. In a run that gets past both opens,
    every write (the schema, a pipeline error, the message of a failed
    close) goes to the output handle and to nothing else; when closing
    the input fails, its message is written to the output after the
    output was closed. *)
Theorem X13_writes_go_to_output (args : list string) (pretty : bool)
    (includeColumns : list string) (columnTypes : gmap string DataType)
    (inputFile outputFile : string) :
  parseFlags E (init_cli args)
    = ((pretty, includeColumns, columnTypes, inputFile, outputFile), None) ->
  input_fails E inputFile = false ->
  output_fails E outputFile = false ->
  Forall (fun ev => forall f s, ev = EvWrite f s -> f = out_file outputFile)
         (trace (main J A E ranges args).2) /\
  match File_Close E (in_file inputFile) with
  | Some err =>
      exists pre,
        EvClose (out_file outputFile) ∈ pre /\
        trace (main J A E ranges args).2 =
          (pre ++ [EvClose (in_file inputFile);
                   EvWrite (out_file outputFile)
                     ("Error closing input file: " ++ Error err ++ nl)])%list
  | None => True
  end.
Proof.
  intros Hpf Hin Hout.
  destruct (main_ok_path args pretty includeColumns columnTypes inputFile
              outputFile Hpf Hin Hout) as [ws [Hws ->]].
  split.
  - rewrite !Forall_app. repeat split.
    + unfold open_events.
      destruct (String.eqb inputFile EmptyString);
        destruct (String.eqb outputFile EmptyString);
        repeat constructor; discriminate.
    + constructor; [discriminate |]. rewrite Forall_app. split.
      * eapply Forall_impl; [exact Hws |].
        intros ev [s0 ->] f s Heq. now injection Heq as <- _.
      * rewrite Forall_app. unfold close_events.
        split;
          (constructor; [discriminate |]);
          (destruct (File_Close E _); constructor;
           [intros f s Heq; now injection Heq as <- _ | constructor]).
  - unfold close_events at 2.
    destruct (File_Close E (in_file inputFile)) as [err |]; [| exact I].
    exists (open_events inputFile outputFile
            ++ EvReadAll (in_file inputFile) :: ws
            ++ close_events E (out_file outputFile) (out_file outputFile) "output")%list.
    split.
    + apply elem_of_app. right. apply elem_of_cons. right.
      apply elem_of_app. right. unfold close_events. apply elem_of_cons. now left.
    + rewrite <- !app_assoc. cbn [List.app]. rewrite <- !app_assoc. reflexivity.
Qed.
End CliEffects.

Lemma X10_input_open_failure_witness :
  main example_Json example_Arrow no_input_Env (fun _ => iter_fwd) [] =
    (1%Z, {| app := init_cli [];
             trace := [EvOpen "in.json";
                       EvWrite Stdout
                         ("Error opening input file: "
                            ++ "no such file or directory" ++ nl)] |}).
Proof.
  refine (X10_input_open_failure example_Json example_Arrow no_input_Env
            (fun _ => iter_fwd) [] true [] ∅ "in.json" EmptyString
            (LibError "no such file or directory") eq_refl _ eq_refl).
  discriminate.
Defined.

Lemma X11_output_create_failure_witness :
  (main example_Json example_Arrow no_output_Env (fun _ => iter_fwd) []).1 = 1%Z /\
  trace (main example_Json example_Arrow no_output_Env (fun _ => iter_fwd) []).2 =
    [EvCreate "out.json";
     EvWrite Stdout ("Error creating output file: " ++ "permission denied" ++ nl);
     EvClose Stdin].
Proof.
  refine (X11_output_create_failure example_Json example_Arrow no_output_Env
            (fun _ => iter_fwd) [] true [] ∅ EmptyString "out.json"
            (LibError "permission denied") eq_refl eq_refl _ eq_refl).
  discriminate.
Defined.

Lemma X13_writes_go_to_output_witness :
  Forall (fun ev => forall f s, ev = EvWrite f s -> f = Stdout)
         (trace (main example_Json example_Arrow bad_close_Env
                   (fun _ => iter_fwd) []).2) /\
  exists pre,
    EvClose Stdout ∈ pre /\
    trace (main example_Json example_Arrow bad_close_Env (fun _ => iter_fwd) []).2 =
      (pre ++ [EvClose Stdin;
               EvWrite Stdout
                 ("Error closing input file: " ++ Error close_error ++ nl)])%list.
Proof.
  exact (X13_writes_go_to_output example_Json example_Arrow bad_close_Env
           (fun _ => iter_fwd) [] true [] ∅ EmptyString EmptyString
           eq_refl eq_refl eq_refl).
Defined.

(** ** Numbers and booleans in the row *)

Lemma plain_char_not_special (c : ascii) :
  plain_char c = true ->
  (Ascii.eqb c "010" || Ascii.eqb c "013" || Ascii.eqb c dquote
   || Ascii.eqb c ",")%char = false /\
  (forall r, String.eqb (String c r) (bytes [92; 46]%N) = false) /\
  forall r, strip_first space_runes (String c r) = None.
Proof.
  destruct c as [[] [] [] [] [] [] [] []]; intros H; try discriminate H;
    repeat split; reflexivity.
Qed.

Lemma all_plain_no_special (s : string) :
  all_plain s = true ->
  string_existsb
    (fun c => Ascii.eqb c "010" || Ascii.eqb c "013"
              || Ascii.eqb c dquote || Ascii.eqb c ",")%char s = false.
Proof.
  induction s as [| c s IH]; [reflexivity |].
  simpl. intros H. apply andb_true_iff in H as [Hc Hs].
  destruct (plain_char_not_special c Hc) as [Hsp _].
  rewrite Hsp. now apply IH.
Qed.

Lemma fieldNeedsQuotes_plain (s : string) :
  all_plain s = true -> fieldNeedsQuotes s = false.
Proof.
  intros H. unfold fieldNeedsQuotes.
  destruct s as [| c r]; [reflexivity |].
  pose proof (all_plain_no_special _ H) as Hex.
  simpl in H. apply andb_true_iff in H as [Hc Hr].
  destruct (plain_char_not_special c Hc) as [_ [Hdot Hstrip]].
  change (String.eqb (String c r) EmptyString) with false. cbv iota.
  rewrite Hdot, Hex, Hstrip. reflexivity.
Qed.

Lemma all_digits_plain (s : string) : all_digits s = true -> all_plain s = true.
Proof.
  induction s as [| c s IH]; [reflexivity |].
  simpl. intros H. apply andb_true_iff in H as [Hc Hs].
  unfold plain_char. rewrite Hc, IH by exact Hs. reflexivity.
Qed.

Lemma all_plain_app (a b : string) :
  all_plain a = true -> all_plain b = true -> all_plain (a ++ b) = true.
Proof.
  induction a as [| c a IH]; intros Ha Hb; [exact Hb |].
  change (all_plain (String c (a ++ b)) = true).
  simpl in *. apply andb_true_iff in Ha as [Hc Ha].
  rewrite Hc. now apply IH.
Qed.

Lemma fixed6_plain (neg : bool) (u : Z) : all_plain (fixed6 neg u) = true.
Proof.
  unfold fixed6.
  destruct (itoa_digits (u / 1000000)) as [_ Hi].
  destruct (frac6_digits (u mod 1000000)) as [_ Hf].
  apply all_plain_app; [now destruct neg |].
  apply all_plain_app; [now apply all_digits_plain |].
  apply all_plain_app; [reflexivity | now apply all_digits_plain].
Qed.

(** X14: numbers and booleans reach the row as they are. The text that
    val2str gives for a boolean or for a float64 (finite or not) is
    never quoted by the CSV writer: the cell is that text. *)
Theorem X14_numbers_and_booleans_unquoted (J : Json) (val : any) :
  match val with
  | VBool _ | VFloat64 _ =>
      fieldNeedsQuotes (val2str J val).1 = false /\
      write_field (val2str J val).1 = (val2str J val).1
  | _ => True
  end.
Proof.
  assert (Hw : forall s, fieldNeedsQuotes s = false ->
                 fieldNeedsQuotes s = false /\ write_field s = s).
  { intros s Hs. split; [exact Hs |]. unfold write_field. now rewrite Hs. }
  destruct val as [s | f | b | | l | m]; try exact I; simpl val2str; cbn [fst].
  - apply Hw. destruct f as [sg | sg | | sg m e]; simpl Sprintf_f.
    + apply fieldNeedsQuotes_plain, fixed6_plain.
    + now destruct sg.
    + reflexivity.
    + apply fieldNeedsQuotes_plain, fixed6_plain.
  - apply Hw. now destruct b.
Qed.
